(** * Clip selection of [davinci_resolve_generator.py]

    A shallow embedding of the clip allocator of
    [src/davinci_resolve_generator.py]: the per-file bookkeeping of used
    ranges ([VideoFile]), the two selection policies ([select_clips],
    [select_clips_smart]), the segment analysis ([analyze_video_segment])
    and the transition optimizer ([optimize_clip_transitions]).

    Python floats are modelled by exact rationals [Q].  Every random draw
    of the source is an explicit argument: [random.uniform(a, b)] is
    [a + (b - a) * u] with [0 <= u < 1] (its CPython definition) and
    [random.choice(seq)] is [seq[k mod len(seq)]] for an arbitrary natural
    [k] (CPython draws an index below [len(seq)]). *)

From Stdlib Require Import QArith Qround Qabs List Permutation Sorted Lia Lqa.
From Stdlib Require Import Arith NArith ZArith String Ascii.
Import ListNotations.

Open Scope Q_scope.

(** ** Stable insertion sort

    Python's [list.sort] / [sorted] are stable.  Inserting each element of
    the input, left to right, after every element that is not strictly
    greater than it yields exactly the stable sorted order. *)

Section StableSort.
Context {A : Type} (ltb : A -> A -> bool).

Fixpoint insert_sorted (x : A) (l : list A) : list A :=
  match l with
  | [] => [x]
  | y :: t => if ltb x y then x :: y :: t else y :: insert_sorted x t
  end.

Definition stable_sort (l : list A) : list A :=
  fold_left (fun acc x => insert_sorted x acc) l [].

Lemma insert_sorted_perm x l : Permutation (x :: l) (insert_sorted x l).
Proof.
  induction l as [|y t IH]; simpl; [reflexivity|].
  destruct (ltb x y); [reflexivity|].
  rewrite perm_swap. now constructor.
Qed.

Lemma stable_sort_perm_acc l acc :
  Permutation (acc ++ l) (fold_left (fun acc x => insert_sorted x acc) l acc).
Proof.
  revert acc; induction l as [|x t IH]; intros acc; simpl.
  - now rewrite app_nil_r.
  - rewrite <- IH. rewrite <- insert_sorted_perm.
    symmetry. apply Permutation_middle.
Qed.

Lemma stable_sort_perm l : Permutation l (stable_sort l).
Proof. apply (stable_sort_perm_acc l []). Qed.

Variable le : A -> A -> Prop.
Hypothesis ltb_le : forall x y, ltb x y = true -> le x y.
Hypothesis not_ltb_le : forall x y, ltb x y = false -> le y x.
Hypothesis le_trans : forall x y z, le x y -> le y z -> le x z.

Lemma insert_sorted_sorted x l :
  StronglySorted le l -> StronglySorted le (insert_sorted x l).
Proof.
  induction l as [|y t IH]; simpl; intros Hs.
  - repeat constructor.
  - inversion Hs as [|? ? Ht Hyt]; subst.
    destruct (ltb x y) eqn:Hxy.
    + constructor; [assumption|]. constructor; [now apply ltb_le|].
      eapply Forall_impl; [|exact Hyt]. intros z Hz.
      eapply le_trans; [apply ltb_le; exact Hxy|exact Hz].
    + constructor; [now apply IH|].
      apply (Permutation_Forall (insert_sorted_perm x t)).
      constructor; [now apply not_ltb_le|assumption].
Qed.

Lemma stable_sort_sorted l : StronglySorted le (stable_sort l).
Proof.
  unfold stable_sort.
  assert (H : forall acc, StronglySorted le acc ->
    StronglySorted le (fold_left (fun acc x => insert_sorted x acc) l acc)).
  { induction l as [|x t IH]; simpl; intros acc Hacc; [assumption|].
    apply IH, insert_sorted_sorted, Hacc. }
  apply H. constructor.
Qed.
End StableSort.

(** ** [VideoFile] *)

(** Python's [<] on floats. *)
Definition Qlt_bool (x y : Q) : bool := negb (Qle_bool y x).

Lemma Qlt_bool_iff x y : Qlt_bool x y = true <-> x < y.
Proof.
  unfold Qlt_bool. rewrite Bool.negb_true_iff.
  split; intros H.
  - apply Qnot_le_lt. intros Hle. apply Qle_bool_iff in Hle. congruence.
  - destruct (Qle_bool y x) eqn:E; [|reflexivity].
    apply Qle_bool_iff in E. exfalso. apply (Qlt_not_le _ _ H E).
Qed.

(** A used range [(start, end)]. *)
Definition range := (Q * Q)%type.

(** Python's ordering of float pairs: lexicographic. *)
Definition range_ltb (x y : range) : bool :=
  Qlt_bool (fst x) (fst y) || (Qeq_bool (fst x) (fst y) && Qlt_bool (snd x) (snd y)).

Record VideoFile := mkVideoFile {
  path : string;
  duration : Q;
  used_ranges : list range;
  timestamp : string;
  min_gap : Q
}.

(** [VideoFile.__init__]: the probed duration, or [0] when the probe fails;
    the timestamp comes from the file name or the modification time. *)
Definition new_video_file (p : string) (probed : option Q) (ts : string) : VideoFile :=
  {| path := p;
     duration := match probed with Some d => d | None => 0 end;
     used_ranges := [];
     timestamp := ts;
     min_gap := 1 |}.

Definition sum_lengths (l : list range) : Q :=
  fold_right (fun r acc => (snd r - fst r) + acc) 0 l.

(** [VideoFile.get_available_duration] *)
Definition get_available_duration (vf : VideoFile) : Q :=
  match used_ranges vf with
  | [] => duration vf
  | _ =>
      let used_duration := sum_lengths (used_ranges vf) in
      let n := List.length (used_ranges vf) in
      let gap_duration :=
        if Nat.ltb 1 n then min_gap vf * inject_Z (Z.of_nat n - 1) else 0 in
      duration vf - used_duration - gap_duration
  end.

Definition sorted_ranges (vf : VideoFile) : list range :=
  stable_sort range_ltb (used_ranges vf).

(** The loop [for i in range(len(sorted_ranges) - 1)] of
    [can_extract_clip]: some gap between consecutive ranges is at least
    [clip_duration + min_gap * 2]. *)
Fixpoint some_inner_gap (need : Q) (sr : list range) : bool :=
  match sr with
  | x :: ((y :: _) as t) => Qle_bool need (fst y - snd x) || some_inner_gap need t
  | _ => false
  end.

(** [VideoFile.can_extract_clip] *)
Definition can_extract_clip (vf : VideoFile) (clip_duration : Q) : bool :=
  if Qlt_bool (duration vf) clip_duration then false else
  let sr := sorted_ranges vf in
  if match sr with
     | (b, _) :: _ => Qle_bool clip_duration b
     | [] => false
     end then true else
  if some_inner_gap (clip_duration + min_gap vf * 2) sr then true else
  if match sr with
     | [] => false
     | _ => Qle_bool (clip_duration + min_gap vf) (duration vf - snd (last sr (0, 0)))
     end then true else
  Qle_bool (clip_duration + min_gap vf) (get_available_duration vf).

(** [random.uniform(a, b)] with [random.random()] returning [u]. *)
Definition uniform (a b u : Q) : Q := a + (b - a) * u.

(** [random.choice(seq)] with the drawn index [k mod len(seq)]. *)
Definition choice {A} (k : nat) (l : list A) : option A :=
  nth_error l (Nat.modulo k (List.length l)).

(** The candidate before the first used range. *)
Definition range_before (L g : Q) (sr : list range) : list range :=
  match sr with
  | (b, _) :: _ => if Qle_bool (L + g) b then [(0, b - L - g)] else []
  | [] => []
  end.

(** The candidates between consecutive used ranges. *)
Fixpoint ranges_between (L g : Q) (sr : list range) : list range :=
  match sr with
  | x :: ((y :: _) as t) =>
      let gap_start := snd x + g in
      let gap_end := fst y - g in
      (if Qle_bool L (gap_end - gap_start) then [(gap_start, gap_end - L)] else [])
        ++ ranges_between L g t
  | _ => []
  end.

(** The candidate after the last used range. *)
Definition range_after (D L g : Q) (sr : list range) : list range :=
  match sr with
  | [] => []
  | _ =>
      let last_end := snd (last sr (0, 0)) + g in
      if Qle_bool L (D - last_end) then [(last_end, D - L)] else []
  end.

Definition available_ranges (vf : VideoFile) (L : Q) : list range :=
  let sr := sorted_ranges vf in
  range_before L (min_gap vf) sr ++ ranges_between L (min_gap vf) sr
    ++ range_after (duration vf) L (min_gap vf) sr.

(** [VideoFile.find_available_position]; [None] is the [ValueError]. *)
Definition find_available_position (vf : VideoFile) (clip_duration : Q)
    (k : nat) (u : Q) : option Q :=
  match used_ranges vf with
  | [] => Some (uniform 0 (duration vf - clip_duration) u)
  | _ =>
      match choice k (available_ranges vf clip_duration) with
      | Some (lo, hi) => Some (uniform lo hi u)
      | None => None
      end
  end.

(** Membership in a Python [set] of float pairs is value equality. *)
Definition range_eqb (x y : range) : bool :=
  Qeq_bool (fst x) (fst y) && Qeq_bool (snd x) (snd y).

(** [VideoFile.add_used_range]: [set.add]. *)
Definition add_used_range (vf : VideoFile) (start d : Q) : VideoFile :=
  let r := (start, start + d) in
  {| path := path vf;
     duration := duration vf;
     used_ranges :=
       if existsb (range_eqb r) (used_ranges vf) then used_ranges vf
       else r :: used_ranges vf;
     timestamp := timestamp vf;
     min_gap := min_gap vf |}.

(** ** States reached by the selection engine

    A file starts fresh, with the duration reported by [ffprobe] (never
    negative) or [0].  Both policies commit, on a file for which
    [can_extract_clip] holds, a start drawn by [find_available_position]
    for the requested clip length, and nothing else ever writes
    [used_ranges]. *)
Inductive reachable : VideoFile -> Prop :=
| reachable_new p probed ts :
    0 <= duration (new_video_file p probed ts) ->
    reachable (new_video_file p probed ts)
| reachable_commit vf L k u s :
    reachable vf -> 0 < L -> 0 <= u -> u < 1 ->
    can_extract_clip vf L = true ->
    find_available_position vf L k u = Some s ->
    reachable (add_used_range vf s L).

(** Two ranges are at least [g] apart. *)
Definition sep (g : Q) (x y : range) : Prop :=
  snd x + g <= fst y \/ snd y + g <= fst x.

(** A range inside [[0, D]]. *)
Definition proper (D : Q) (x : range) : Prop :=
  0 <= fst x /\ fst x <= snd x /\ snd x <= D.

Definition le_start (x y : range) : Prop := fst x <= fst y.

Definition ranges_ok (D g : Q) (l : list range) : Prop :=
  Forall (proper D) l /\ ForallOrdPairs (sep g) l.

(** *** Generic list facts *)

Lemma ForallOrdPairs_perm {A} (R : A -> A -> Prop) :
  (forall x y, R x y -> R y x) ->
  forall l l', Permutation l l' -> ForallOrdPairs R l -> ForallOrdPairs R l'.
Proof.
  intros Hsym l l' HP; induction HP; intros H.
  - exact H.
  - inversion H as [|? ? Hx Hl]; subst.
    constructor; [eapply Permutation_Forall; eassumption|auto].
  - inversion H as [|? ? Hy Hrest]; subst.
    inversion Hrest as [|? ? Hx Hl]; subst.
    inversion Hy as [|? ? Hyx Hyl]; subst.
    constructor; [constructor; [apply Hsym; exact Hyx|exact Hx]|].
    constructor; assumption.
  - auto.
Qed.

Lemma StronglySorted_ForallOrdPairs {A} (R : A -> A -> Prop) l :
  StronglySorted R l -> ForallOrdPairs R l.
Proof.
  induction 1; constructor; assumption.
Qed.

Lemma ForallOrdPairs_app_mid {A} (R : A -> A -> Prop) pre x post :
  ForallOrdPairs R (pre ++ x :: post) ->
  (forall z, In z pre -> R z x) /\ (forall z, In z post -> R x z).
Proof.
  induction pre as [|a pre IH]; simpl; intros H.
  - inversion H as [|? ? Hx _]; subst.
    split; [intros z []|]. intros z Hz. eapply Forall_forall in Hx; eassumption.
  - inversion H as [|? ? Ha Hrest]; subst.
    destruct (IH Hrest) as [H1 H2]. split; [|exact H2].
    intros z [<-|Hz]; [|auto].
    eapply Forall_forall in Ha; [exact Ha|]. apply in_or_app; simpl; auto.
Qed.

(** *** Arithmetic facts *)

Lemma Qlt_bool_false x y : Qlt_bool x y = false -> y <= x.
Proof.
  unfold Qlt_bool. rewrite Bool.negb_false_iff. apply Qle_bool_iff.
Qed.

Lemma Qle_bool_false x y : Qle_bool x y = false -> y < x.
Proof.
  intros H. apply Qnot_le_lt. intros Hle. apply Qle_bool_iff in Hle. congruence.
Qed.

Lemma uniform_bounds lo hi u :
  lo <= hi -> 0 <= u -> u < 1 -> lo <= uniform lo hi u /\ uniform lo hi u <= hi.
Proof.
  intros H H0 H1. unfold uniform. split; nra.
Qed.

Lemma sep_sym g x y : sep g x y -> sep g y x.
Proof. unfold sep; tauto. Qed.

(** Of two separated ranges, the one starting first ends first. *)
Lemma sorted_sep_before g x y :
  0 < g -> fst y <= snd y -> le_start x y -> sep g x y -> snd x + g <= fst y.
Proof.
  unfold le_start, sep; intros Hg Hy Hxy [H|H]; [exact H|lra].
Qed.

(** *** The sorted ranges *)

Lemma sorted_ranges_perm vf : Permutation (used_ranges vf) (sorted_ranges vf).
Proof. apply stable_sort_perm. Qed.

Lemma sorted_ranges_sorted vf : StronglySorted le_start (sorted_ranges vf).
Proof.
  apply stable_sort_sorted; unfold le_start.
  - intros x y H. unfold range_ltb in H. apply Bool.orb_true_iff in H as [H|H].
    + apply Qlt_bool_iff in H. lra.
    + apply Bool.andb_true_iff in H as [H _]. apply Qeq_bool_iff in H. lra.
  - intros x y H. unfold range_ltb in H. apply Bool.orb_false_iff in H as [H _].
    now apply Qlt_bool_false.
  - intros x y z. lra.
Qed.

Lemma ranges_ok_sorted vf :
  ranges_ok (duration vf) (min_gap vf) (used_ranges vf) ->
  ranges_ok (duration vf) (min_gap vf) (sorted_ranges vf).
Proof.
  intros [Hp Hs]. split.
  - eapply Permutation_Forall; [apply sorted_ranges_perm|exact Hp].
  - eapply ForallOrdPairs_perm; [apply sep_sym|apply sorted_ranges_perm|exact Hs].
Qed.

(** *** Every candidate range keeps the gap *)

Lemma in_ranges_between L g sr lo hi :
  In (lo, hi) (ranges_between L g sr) ->
  exists pre x y post, sr = pre ++ x :: y :: post /\
    lo = snd x + g /\ hi = fst y - g - L /\ L <= (fst y - g) - (snd x + g).
Proof.
  induction sr as [|x t IH]; [intros []|].
  destruct t as [|y t']; [intros []|].
  simpl. intros H. apply in_app_or in H as [H|H].
  - destruct (Qle_bool L (fst y - g - (snd x + g))) eqn:E; [|destruct H].
    destruct H as [H|[]]. injection H as <- <-.
    exists [], x, y, t'. repeat split; try reflexivity.
    now apply Qle_bool_iff.
  - destruct (IH H) as (pre & a & b & post & Heq & Hlo & Hhi & Hgap).
    exists (x :: pre), a, b, post. rewrite Heq. repeat split; assumption.
Qed.

Lemma in_sr_cases {A} (pre : list A) x y post z :
  In z (pre ++ x :: y :: post) -> In z pre \/ z = x \/ z = y \/ In z post.
Proof.
  intros H. apply in_app_or in H as [H|[H|[H|H]]]; auto.
Qed.

Section CandidateRanges.
Variables (D g L : Q) (sr : list range).
Hypothesis Hg : 0 < g.
Hypothesis HL : 0 < L.
Hypothesis Hok : ranges_ok D g sr.
Hypothesis Hsorted : StronglySorted le_start sr.

Lemma range_before_ok lo hi :
  In (lo, hi) (range_before L g sr) -> lo <= hi /\
  forall s, lo <= s -> s <= hi ->
    proper D (s, s + L) /\ Forall (sep g (s, s + L)) sr.
Proof.
  destruct Hok as [Hp _].
  destruct sr as [|[b e] t]; simpl; [intros []|].
  destruct (Qle_bool (L + g) b) eqn:E; [|intros []].
  apply Qle_bool_iff in E. intros [H|[]]. injection H as <- <-.
  inversion Hp as [|? ? [Hb1 [Hb2 Hb3]] _]; subst; simpl in *.
  inversion Hsorted as [|? ? _ Hall]; subst.
  split; [lra|]. intros s H1 H2. split; [unfold proper; simpl; lra|].
  constructor; [left; simpl; lra|].
  eapply Forall_impl; [|exact Hall]. intros z Hz. unfold le_start in Hz.
  left. simpl in *. lra.
Qed.

Lemma ranges_between_ok lo hi :
  In (lo, hi) (ranges_between L g sr) -> lo <= hi /\
  forall s, lo <= s -> s <= hi ->
    proper D (s, s + L) /\ Forall (sep g (s, s + L)) sr.
Proof.
  destruct Hok as [Hp Hs].
  intros H. destruct (in_ranges_between _ _ _ _ _ H)
    as (pre & x & y & post & Heq & Hlo & Hhi & Hgap).
  subst lo hi. split; [lra|]. intros s H1 H2.
  rewrite Heq in Hp, Hs, Hsorted |- *.
  assert (Hpx : proper D x) by (eapply Forall_forall; [exact Hp|]; apply in_or_app; simpl; auto).
  assert (Hpy : proper D y) by (eapply Forall_forall; [exact Hp|]; apply in_or_app; simpl; auto).
  destruct Hpx as (Hx1 & Hx2 & Hx3), Hpy as (Hy1 & Hy2 & Hy3).
  split; [unfold proper; simpl; lra|].
  apply Forall_forall. intros z Hz.
  destruct (ForallOrdPairs_app_mid _ _ _ _ Hs) as [Hsep_pre _].
  destruct (ForallOrdPairs_app_mid _ _ _ _ (StronglySorted_ForallOrdPairs _ _ Hsorted))
    as [Hle_pre Hle_post].
  apply in_sr_cases in Hz as [Hz|[->|[->|Hz]]].
  - assert (Hpz : proper D z) by (eapply Forall_forall; [exact Hp|]; apply in_or_app; auto).
    pose proof (sorted_sep_before g z x Hg Hx2 (Hle_pre z Hz) (Hsep_pre z Hz)).
    right. simpl in *. lra.
  - right. simpl. lra.
  - left. simpl. lra.
  - assert (Hyz : le_start y z).
    { assert (Hsub : StronglySorted le_start (y :: post)).
      { clear -Hsorted. induction pre as [|a pre IH]; simpl in Hsorted.
        - now inversion Hsorted.
        - inversion Hsorted; auto. }
      inversion Hsub as [|? ? _ Hall]; subst.
      eapply Forall_forall; eassumption. }
    unfold le_start in Hyz. left. simpl. lra.
Qed.

Lemma range_after_ok lo hi :
  In (lo, hi) (range_after D L g sr) -> lo <= hi /\
  forall s, lo <= s -> s <= hi ->
    proper D (s, s + L) /\ Forall (sep g (s, s + L)) sr.
Proof.
  destruct Hok as [Hp Hs].
  unfold range_after. destruct sr as [|a r] eqn:Hsr; [intros []|].
  rewrite <- Hsr in *.
  set (l := last sr (0, 0)).
  destruct (Qle_bool L (D - (snd l + g))) eqn:E; [|intros []].
  apply Qle_bool_iff in E. intros [H|[]]. injection H as <- <-.
  assert (Hdec : sr = removelast sr ++ [l]).
  { apply app_removelast_last. rewrite Hsr. discriminate. }
  assert (Hpl : proper D l).
  { eapply Forall_forall; [exact Hp|]. rewrite Hdec. apply in_or_app; simpl; auto. }
  destruct Hpl as (Hl1 & Hl2 & Hl3).
  split; [lra|]. intros s H1 H2. split; [unfold proper; simpl; lra|].
  apply Forall_forall. intros z Hz.
  rewrite Hdec in Hz, Hs, Hsorted.
  destruct (ForallOrdPairs_app_mid _ _ _ _ Hs) as [Hsep_pre _].
  destruct (ForallOrdPairs_app_mid _ _ _ _ (StronglySorted_ForallOrdPairs _ _ Hsorted))
    as [Hle_pre _].
  apply in_app_or in Hz as [Hz|[<-|[]]].
  - pose proof (sorted_sep_before g z l Hg Hl2 (Hle_pre z Hz) (Hsep_pre z Hz)).
    assert (Hpz : proper D z).
    { eapply Forall_forall; [exact Hp|]. rewrite Hdec. apply in_or_app; auto. }
    destruct Hpz as (? & ? & ?). right. simpl in *. lra.
  - right. simpl. lra.
Qed.
End CandidateRanges.

(** *** [find_available_position] and [add_used_range] keep the invariant *)

Lemma choice_In {A} k (l : list A) x : choice k l = Some x -> In x l.
Proof. unfold choice. apply nth_error_In. Qed.

Lemma can_extract_clip_fits vf L : can_extract_clip vf L = true -> L <= duration vf.
Proof.
  unfold can_extract_clip. destruct (Qlt_bool (duration vf) L) eqn:E; [discriminate|].
  intros _. now apply Qlt_bool_false.
Qed.

Lemma find_available_position_ok vf L k u s :
  0 < min_gap vf -> 0 < L -> 0 <= u -> u < 1 -> L <= duration vf ->
  ranges_ok (duration vf) (min_gap vf) (used_ranges vf) ->
  find_available_position vf L k u = Some s ->
  proper (duration vf) (s, s + L) /\
  Forall (sep (min_gap vf) (s, s + L)) (used_ranges vf).
Proof.
  intros Hg HL Hu0 Hu1 HD Hok. unfold find_available_position.
  destruct (used_ranges vf) as [|r0 rs] eqn:Hused.
  - intros H. injection H as <-.
    destruct (uniform_bounds 0 (duration vf - L) u) as [H1 H2]; [lra|assumption|assumption|].
    split; [unfold proper; simpl; lra|constructor].
  - rewrite <- Hused in *.
    destruct (choice k (available_ranges vf L)) as [[lo hi]|] eqn:Hc; [|discriminate].
    intros H. injection H as <-. apply choice_In in Hc.
    pose proof (ranges_ok_sorted vf Hok) as Hok'.
    pose proof (sorted_ranges_sorted vf) as Hsort.
    assert (Hcase : lo <= hi /\ forall s, lo <= s -> s <= hi ->
      proper (duration vf) (s, s + L) /\
      Forall (sep (min_gap vf) (s, s + L)) (sorted_ranges vf)).
    { unfold available_ranges in Hc.
      apply in_app_or in Hc as [Hc|Hc]; [now apply range_before_ok|].
      apply in_app_or in Hc as [Hc|Hc]; [now apply ranges_between_ok|].
      now apply range_after_ok. }
    destruct Hcase as [Hlh Hall].
    destruct (uniform_bounds lo hi u Hlh Hu0 Hu1) as [H1 H2].
    destruct (Hall _ H1 H2) as [Hp Hsep]. split; [exact Hp|].
    eapply Permutation_Forall; [symmetry; apply sorted_ranges_perm|exact Hsep].
Qed.

Lemma add_used_range_ok vf s L :
  0 < min_gap vf -> proper (duration vf) (s, s + L) ->
  Forall (sep (min_gap vf) (s, s + L)) (used_ranges vf) ->
  ranges_ok (duration vf) (min_gap vf) (used_ranges vf) ->
  used_ranges (add_used_range vf s L) = (s, s + L) :: used_ranges vf /\
  ranges_ok (duration vf) (min_gap vf) ((s, s + L) :: used_ranges vf).
Proof.
  intros Hg Hp Hsep [Hps Hss].
  assert (Hnew : existsb (range_eqb (s, s + L)) (used_ranges vf) = false).
  { apply Bool.not_true_iff_false. intros Hex.
    apply existsb_exists in Hex as [z [Hz Heq]].
    unfold range_eqb in Heq. apply Bool.andb_true_iff in Heq as [E1 E2].
    apply Qeq_bool_iff in E1, E2.
    pose proof (proj1 (Forall_forall _ _) Hsep z Hz) as Hs.
    pose proof (proj1 (Forall_forall _ _) Hps z Hz) as Hpz.
    destruct Hp as (? & ? & ?), Hpz as (? & ? & ?).
    unfold sep in Hs; simpl in *. lra. }
  simpl. rewrite Hnew. split; [reflexivity|].
  split; constructor; assumption.
Qed.

(** The invariant of every file the engine works on. *)
Definition tracker_ok (vf : VideoFile) : Prop :=
  min_gap vf = 1 /\ ranges_ok (duration vf) (min_gap vf) (used_ranges vf).

Lemma commit_ok vf L k u s :
  tracker_ok vf -> 0 < L -> 0 <= u -> u < 1 ->
  can_extract_clip vf L = true ->
  find_available_position vf L k u = Some s ->
  tracker_ok (add_used_range vf s L) /\
  used_ranges (add_used_range vf s L) = (s, s + L) :: used_ranges vf /\
  proper (duration vf) (s, s + L).
Proof.
  intros [Hg Hok] HL Hu0 Hu1 Hcan Hfind.
  assert (Hg0 : 0 < min_gap vf) by (rewrite Hg; reflexivity).
  destruct (find_available_position_ok vf L k u s Hg0 HL Hu0 Hu1
              (can_extract_clip_fits _ _ Hcan) Hok Hfind) as [Hp Hsep].
  destruct (add_used_range_ok vf s L Hg0 Hp Hsep Hok) as [Heq Hok'].
  split; [|split; assumption].
  split; [exact Hg|]. rewrite Heq. exact Hok'.
Qed.

Lemma reachable_ok vf : reachable vf -> tracker_ok vf.
Proof.
  induction 1 as [p probed ts _|vf L k u s Hr IH HL Hu0 Hu1 Hcan Hfind].
  - split; [reflexivity|]. split; constructor.
  - now apply (commit_ok vf L k u s).
Qed.

(** ** Clips and the selection engine *)

(** The [Dict[str, float]] returned by [analyze_video_segment]. *)
Record Features := mkFeatures {
  scene_score : Q;
  motion_score : Q;
  color_variance : Q
}.

Definition zero_features : Features := mkFeatures 0 0 0.

Module ClipInfo.
Record t := mk {
  file : string;
  start : Q;
  duration : Q;
  file_timestamp : string;
  scene_score : Q;
  motion_score : Q;
  color_variance : Q
}.
End ClipInfo.

(** Python's ordering of [(file_timestamp, start)] keys. *)
Definition clip_ltb (x y : ClipInfo.t) : bool :=
  String.ltb (ClipInfo.file_timestamp x) (ClipInfo.file_timestamp y)
  || (String.eqb (ClipInfo.file_timestamp x) (ClipInfo.file_timestamp y)
      && Qlt_bool (ClipInfo.start x) (ClipInfo.start y)).

(** [selected_clips.sort(key=lambda x: (x.file_timestamp, x.start))] *)
Definition sort_clips (l : list ClipInfo.t) : list ClipInfo.t := stable_sort clip_ltb l.

(** [list[i] = x] on an index that exists. *)
Fixpoint replace_nth {A} (i : nat) (x : A) (l : list A) : list A :=
  match l, i with
  | [], _ => []
  | _ :: t, O => x :: t
  | y :: t, S i' => y :: replace_nth i' x t
  end.

(** [math.ceil(total_duration / clip_duration)], lowered to the sum of
    [math.floor(duration / clip_duration)] over the files at least one clip
    long when that sum is smaller. *)
Definition total_possible_clips (video_files : list VideoFile) (clip_duration : Q) : Z :=
  fold_right Z.add 0%Z
    (map (fun vf => Qfloor (duration vf / clip_duration))
       (filter (fun vf => Qle_bool clip_duration (duration vf)) video_files)).

Definition num_clips_needed (video_files : list VideoFile) (clip_duration total_duration : Q) : Z :=
  let needed := Qceiling (total_duration / clip_duration) in
  let possible := total_possible_clips video_files clip_duration in
  if Z.ltb possible needed then possible else needed.

(** The files passing [can_extract_clip], with their positions in
    [video_files]. *)
Definition available_files (fs : list VideoFile) (L : Q) : list (nat * VideoFile) :=
  filter (fun p => can_extract_clip (snd p) L) (combine (seq 0 (List.length fs)) fs).

(** [available_files.sort(key=get_available_duration, reverse=True)]
    followed by [available_files[:max(1, len(available_files) // 2)]]. *)
Definition top_half (av : list (nat * VideoFile)) : list (nat * VideoFile) :=
  let sorted := stable_sort
    (fun a b => Qlt_bool (get_available_duration (snd b)) (get_available_duration (snd a))) av in
  firstn (Nat.max 1 (Nat.div (List.length sorted) 2)) sorted.

(** Commit a start on the file at position [i] and append its clip. *)
Definition commit_clip (fs : list VideoFile) (i : nat) (vf : VideoFile) (s L : Q)
    (f : Features) : list VideoFile * ClipInfo.t :=
  (replace_nth i (add_used_range vf s L) fs,
   ClipInfo.mk (path vf) s L (timestamp vf)
     (scene_score f) (motion_score f) (color_variance f)).

Inductive Step (S : Type) := Stop | Next (st : S).
Arguments Stop {S}.
Arguments Next {S} st.

(** *** [select_clips] *)

(** The random draws of one iteration: the index of [random.choice] over
    the files, the index of [random.choice] over the candidate ranges and
    the [random.random()] of [random.uniform]. *)
Record PlainDraw := mkPlainDraw { pick_file : nat; pick_range : nat; pick_u : Q }.

Record PlainState := mkPlainState {
  ps_files : list VideoFile;
  ps_selected : list ClipInfo.t
}.

(** One turn of [while len(selected_clips) < num_clips_needed]. *)
Definition plain_iter (needed : Z) (L : Q) (st : PlainState) (d : PlainDraw)
    : Step PlainState :=
  if Z.ltb (Z.of_nat (List.length (ps_selected st))) needed then
    match available_files (ps_files st) L with
    | [] => Stop
    | av =>
        match choice (pick_file d) (top_half av) with
        | None => Stop
        | Some (i, vf) =>
            match find_available_position vf L (pick_range d) (pick_u d) with
            | None => Next st
            | Some s =>
                let '(fs', c) := commit_clip (ps_files st) i vf s L zero_features in
                Next (mkPlainState fs' (ps_selected st ++ [c]))
            end
        end
    end
  else Stop.

(** The loop, run for at most [fuel] turns ([None]: not finished), with
    the [n]-th turn drawing [rng n].  The result is the returned list and
    the files as mutated by the run. *)
Fixpoint plain_loop (fuel : nat) (needed : Z) (L : Q) (rng : nat -> PlainDraw)
    (n : nat) (st : PlainState) : option (list ClipInfo.t * list VideoFile) :=
  match fuel with
  | O => None
  | S fuel' =>
      match plain_iter needed L st (rng n) with
      | Stop => Some (sort_clips (ps_selected st), ps_files st)
      | Next st' => plain_loop fuel' needed L rng (S n) st'
      end
  end.

(** [select_clips] *)
Definition select_clips (fuel : nat) (rng : nat -> PlainDraw)
    (video_files : list VideoFile) (clip_duration total_duration : Q)
    : option (list ClipInfo.t * list VideoFile) :=
  plain_loop fuel (num_clips_needed video_files clip_duration total_duration)
    clip_duration rng 0 (mkPlainState video_files []).

(** *** [select_clips_smart] *)

(** [np.mean] *)
Definition mean (l : list Q) : Q :=
  fold_right Qplus 0 l / inject_Z (Z.of_nat (List.length l)).

(** The [final_score] of a candidate with features [f], given the
    features of the clips selected so far. *)
Definition final_score (diversity_weight : Q) (selected_features : list Features)
    (f : Features) : Q :=
  let diversity_score :=
    match selected_features with
    | [] => 0
    | _ =>
        (Qabs (scene_score f - mean (map scene_score selected_features))
         + Qabs (motion_score f - mean (map motion_score selected_features))
         + Qabs (color_variance f - mean (map color_variance selected_features))) / 3
    end in
  let quality_score := (scene_score f + motion_score f + color_variance f) / 3 in
  (1 - diversity_weight) * quality_score + diversity_weight * diversity_score.

(** [best_file], [best_start_time], [best_features] and [best_score];
    [None] is the initial state [best_file = None], [best_score = -inf]. *)
Record Best := mkBest {
  best_index : nat;
  best_file : VideoFile;
  best_start : Q;
  best_features : Features;
  best_score : Q
}.

(** The random draws of one iteration: for the [t]-th try on the [pos]-th
    available file, the range index, the [random.random()] of
    [random.uniform] and the result of [analyze_video_segment]; then the
    same draws for the fallback. *)
Record SmartDraw := mkSmartDraw {
  try_draw : nat -> nat -> nat * Q * Features;
  fb_pick_file : nat;
  fb_pick_range : nat;
  fb_u : Q;
  fb_features : Features
}.

(** One try of [for _ in range(5)]. *)
Definition eval_try (dw : Q) (sel : list Features) (L : Q) (d : SmartDraw)
    (pos i : nat) (vf : VideoFile) (best : option Best) (t : nat) : option Best :=
  let '(kr, u, f) := try_draw d pos t in
  match find_available_position vf L kr u with
  | None => best
  | Some s =>
      let sc := final_score dw sel f in
      match best with
      | Some b => if Qlt_bool (best_score b) sc then Some (mkBest i vf s f sc) else best
      | None => Some (mkBest i vf s f sc)
      end
  end.

(** [for video_file in available_files: for _ in range(5): ...] *)
Definition eval_files (dw : Q) (sel : list Features) (L : Q) (d : SmartDraw)
    (av : list (nat * VideoFile)) : option Best :=
  fold_left
    (fun best (pc : nat * (nat * VideoFile)) =>
       let '(pos, (i, vf)) := pc in
       fold_left (eval_try dw sel L d pos i vf) (seq 0 5) best)
    (combine (seq 0 (List.length av)) av) None.

Record SmartState := mkSmartState {
  ss_files : list VideoFile;
  ss_selected : list ClipInfo.t;
  ss_features : list Features
}.

Definition smart_commit (st : SmartState) (i : nat) (vf : VideoFile) (s L : Q)
    (f : Features) : SmartState :=
  let '(fs', c) := commit_clip (ss_files st) i vf s L f in
  mkSmartState fs' (ss_selected st ++ [c]) (ss_features st ++ [f]).

(** One turn of the [while] loop of [select_clips_smart]. *)
Definition smart_iter (dw : Q) (needed : Z) (L : Q) (st : SmartState) (d : SmartDraw)
    : Step SmartState :=
  if Z.ltb (Z.of_nat (List.length (ss_selected st))) needed then
    match available_files (ss_files st) L with
    | [] => Stop
    | av =>
        match eval_files dw (ss_features st) L d av with
        | Some b => Next (smart_commit st (best_index b) (best_file b) (best_start b) L
                           (best_features b))
        | None =>
            match choice (fb_pick_file d) (top_half av) with
            | None => Stop
            | Some (i, vf) =>
                match find_available_position vf L (fb_pick_range d) (fb_u d) with
                | None => Next st
                | Some s => Next (smart_commit st i vf s L (fb_features d))
                end
            end
        end
    end
  else Stop.

Fixpoint smart_loop (fuel : nat) (dw : Q) (needed : Z) (L : Q) (rng : nat -> SmartDraw)
    (n : nat) (st : SmartState) : option (list ClipInfo.t * list VideoFile) :=
  match fuel with
  | O => None
  | S fuel' =>
      match smart_iter dw needed L st (rng n) with
      | Stop => Some (sort_clips (ss_selected st), ss_files st)
      | Next st' => smart_loop fuel' dw needed L rng (S n) st'
      end
  end.

(** [select_clips_smart].  The sampling pass that fills [file_features]
    is left out: [file_features] is never read afterwards, and
    [analyze_video_segment] never raises (see [analyze_video_segment]
    below), so the pass only consumes random draws. *)
Definition select_clips_smart (fuel : nat) (rng : nat -> SmartDraw)
    (video_files : list VideoFile) (clip_duration total_duration : Q)
    (diversity_weight : Q) : option (list ClipInfo.t * list VideoFile) :=
  smart_loop fuel diversity_weight
    (num_clips_needed video_files clip_duration total_duration)
    clip_duration rng 0 (mkSmartState video_files [] []).

(** ** [analyze_video_segment] *)

Inductive PyExc := CalledProcessError | OtherException.

Inductive PyResult (A : Type) := PyOk (a : A) | PyRaise (e : PyExc).
Arguments PyOk {A} a.
Arguments PyRaise {A} e.

(** Statements of [analyze_video_segment] read and write its [result]
    dict and may raise. *)
Definition AM (A : Type) := Features -> PyResult A * Features.

Definition am_ret {A} (a : A) : AM A := fun r => (PyOk a, r).

Definition am_bind {A B} (m : AM A) (k : A -> AM B) : AM B := fun r =>
  match m r with
  | (PyOk a, r') => k a r'
  | (PyRaise e, r') => (PyRaise e, r')
  end.

Notation "m ;;; k" := (am_bind m (fun _ => k)) (at level 61, right associativity).

Definition am_raise {A} (e : PyExc) : AM A := fun r => (PyRaise e, r).

Definition am_get : AM Features := fun r => (PyOk r, r).

Definition am_put (r : Features) : AM unit := fun _ => (PyOk tt, r).

(** [try: m except <catches>: h] *)
Definition am_try_except {A} (m : AM A) (catches : PyExc -> bool) (h : AM A) : AM A :=
  fun r =>
    match m r with
    | (PyRaise e, r') => if catches e then h r' else (PyRaise e, r')
    | ok => ok
    end.

(** [try: m finally: fin] *)
Definition am_try_finally {A} (m : AM A) (fin : AM unit) : AM A := fun r =>
  let '(res, r') := m r in
  match fin r' with
  | (PyOk _, r'') => (res, r'')
  | (PyRaise e, r'') => (PyRaise e, r'')
  end.

(** How the external steps of one call turn out: creating the temporary
    file, running [ffprobe] into it ([with open(...)] and
    [subprocess.run(..., check=True)]: [None] when it succeeds), reading it
    back with [json.load], and the [os.remove] of the [finally]. *)
Record AnalysisEnv := mkAnalysisEnv {
  tempfile_ok : bool;
  ffprobe_outcome : option PyExc;
  json_ok : bool;
  remove_ok : bool
}.

Definition io_step (ok : bool) : AM unit :=
  if ok then am_ret tt else am_raise OtherException.

Definition run_ffprobe (env : AnalysisEnv) : AM unit :=
  match ffprobe_outcome env with
  | None => am_ret tt
  | Some e => am_raise e
  end.

(** The three [random.uniform(0.1, 0.9)] draws. *)
Definition random_features (u1 u2 u3 : Q) : Features :=
  mkFeatures (uniform (1 # 10) (9 # 10) u1) (uniform (1 # 10) (9 # 10) u2)
    (uniform (1 # 10) (9 # 10) u3).

Definition is_called_process_error (e : PyExc) : bool :=
  match e with CalledProcessError => true | OtherException => false end.

(** [analyze_video_segment]; [file_path], [start_time] and [duration] only
    reach the [ffprobe] command line and the log lines, so their effect is
    part of [env]. *)
Definition analyze_video_segment (env : AnalysisEnv) (file_path : string)
    (start_time duration : Q) (u1 u2 u3 : Q) : PyResult Features :=
  let body :=
    am_try_except
      (io_step (tempfile_ok env) ;;;
       am_try_finally
         (am_try_except
            (run_ffprobe env ;;; io_step (json_ok env) ;;;
             am_put (random_features u1 u2 u3))
            is_called_process_error
            (am_put (random_features u1 u2 u3)))
         (io_step (remove_ok env)))
      (fun _ => true)
      (am_ret tt) in
  fst ((body ;;; am_get) zero_features).

(** ** The transition optimizer *)

(** [detect_scene_changes]: the [random.uniform(0, duration)] draws,
    sorted. *)
Definition detect_scene_changes (draws : list Q) : list Q := stable_sort Qlt_bool draws.

(** [min(scene_changes, key=lambda x: abs(x - mid_point))]: the first
    element with the least key. *)
Definition closest_to (mid_point : Q) (x : Q) (rest : list Q) : Q :=
  fold_left (fun best y => if Qlt_bool (Qabs (y - mid_point)) (Qabs (best - mid_point))
                           then y else best) rest x.

(** [find_optimal_transition_point] *)
Definition find_optimal_transition_point (start_time duration : Q) (scene_changes : list Q) : Q :=
  match scene_changes with
  | [] => start_time + duration / 2
  | x :: rest => start_time + closest_to (duration / 2) x rest
  end.

(** The body of the loop of [optimize_clip_transitions] for one clip,
    given the draws of its [detect_scene_changes]. *)
Definition optimize_clip (clip : ClipInfo.t) (draws : list Q) : ClipInfo.t :=
  let optimal_start := find_optimal_transition_point (ClipInfo.start clip)
                         (ClipInfo.duration clip) (detect_scene_changes draws) in
  let shift := optimal_start - ClipInfo.start clip in
  let max_shift := ClipInfo.duration clip * (2 # 10) in
  if Qle_bool (Qabs shift) max_shift then
    ClipInfo.mk (ClipInfo.file clip) optimal_start (ClipInfo.duration clip)
      (ClipInfo.file_timestamp clip) (ClipInfo.scene_score clip)
      (ClipInfo.motion_score clip) (ClipInfo.color_variance clip)
  else clip.

(** [optimize_clip_transitions]; the [i]-th clip uses the draws
    [scene_draws i]. *)
Fixpoint optimize_from (i : nat) (scene_draws : nat -> list Q) (clips : list ClipInfo.t)
    : list ClipInfo.t :=
  match clips with
  | [] => []
  | clip :: rest => optimize_clip clip (scene_draws i) :: optimize_from (S i) scene_draws rest
  end.

Definition optimize_clip_transitions (clips : list ClipInfo.t) (scene_draws : nat -> list Q)
    : list ClipInfo.t :=
  optimize_from 0 scene_draws clips.

(** ** The selection engine keeps the trackers reachable *)

(** *** List facts *)

Lemma nth_error_replace_nth_eq {A} i (x : A) l :
  (i < List.length l)%nat -> nth_error (replace_nth i x l) i = Some x.
Proof.
  revert i; induction l as [|y t IH]; intros [|i] H; simpl in *; try lia; auto.
  apply IH. lia.
Qed.

Lemma nth_error_replace_nth_neq {A} i j (x : A) l :
  i <> j -> nth_error (replace_nth i x l) j = nth_error l j.
Proof.
  revert i j; induction l as [|y t IH]; intros [|i] [|j] H; simpl; auto; lia || apply IH; lia.
Qed.

Lemma In_replace_nth {A} i (x z : A) l : In z (replace_nth i x l) -> In z l \/ z = x.
Proof.
  revert i; induction l as [|y t IH]; intros [|i]; simpl; auto.
  - intros [<-|H]; auto.
  - intros [<-|H]; auto. destruct (IH i H); auto.
Qed.

(** A file of [l] is still in [l] after the file at [i] is replaced,
    unless it is the replaced file itself. *)
Lemma In_replace_nth_keep {A} i (x y z : A) l :
  nth_error l i = Some y -> In z l -> In z (replace_nth i x l) \/ z = y.
Proof.
  intros Hi Hz. apply In_nth_error in Hz as [j Hj].
  destruct (Nat.eq_dec i j) as [->|Hne].
  - right. congruence.
  - left. apply nth_error_In with j. rewrite nth_error_replace_nth_neq; auto.
Qed.

Lemma In_combine_seq {A} (l : list A) start i x :
  In (i, x) (combine (seq start (List.length l)) l) ->
  (start <= i)%nat /\ nth_error l (i - start) = Some x.
Proof.
  revert start; induction l as [|y t IH]; intros start; simpl; [intros []|].
  intros [H|H].
  - injection H as <- <-. rewrite Nat.sub_diag. simpl. split; auto.
  - destruct (IH (S start) H) as [H1 H2]. split; [lia|].
    replace (i - start)%nat with (S (i - S start)) by lia. exact H2.
Qed.

Lemma available_files_In fs L i vf :
  In (i, vf) (available_files fs L) ->
  nth_error fs i = Some vf /\ can_extract_clip vf L = true.
Proof.
  unfold available_files. intros H. apply filter_In in H as [H1 H2].
  apply In_combine_seq in H1 as [_ H1]. rewrite Nat.sub_0_r in H1. auto.
Qed.

Lemma top_half_In av p : In p (top_half av) -> In p av.
Proof.
  unfold top_half. intros H.
  eapply Permutation_in; [symmetry; apply stable_sort_perm|].
  rewrite <- (firstn_skipn (Nat.max 1 (Nat.div (List.length (stable_sort
    (fun a b => Qlt_bool (get_available_duration (snd b)) (get_available_duration (snd a))) av)) 2))).
  apply in_or_app. left. exact H.
Qed.

Lemma choice_top_half fs L k i vf :
  choice k (top_half (available_files fs L)) = Some (i, vf) ->
  nth_error fs i = Some vf /\ can_extract_clip vf L = true.
Proof.
  intros H. apply choice_In, top_half_In, available_files_In in H. exact H.
Qed.

(** *** The engine invariant *)

(** A clip whose window is a committed, in-bounds range of a file with its
    path and timestamp. *)
Definition clip_registered (fs : list VideoFile) (c : ClipInfo.t) : Prop :=
  exists vf, In vf fs /\ path vf = ClipInfo.file c /\
    timestamp vf = ClipInfo.file_timestamp c /\
    In (ClipInfo.start c, ClipInfo.start c + ClipInfo.duration c) (used_ranges vf) /\
    proper (duration vf) (ClipInfo.start c, ClipInfo.start c + ClipInfo.duration c).

Definition engine_inv (L : Q) (fs : list VideoFile) (sel : list ClipInfo.t) : Prop :=
  Forall reachable fs /\
  Forall (fun c => ClipInfo.duration c = L /\ clip_registered fs c) sel.

Definition valid_u (u : Q) : Prop := 0 <= u /\ u < 1.

Lemma commit_clip_inv L fs sel i vf k u s f :
  0 < L -> valid_u u -> engine_inv L fs sel ->
  nth_error fs i = Some vf -> can_extract_clip vf L = true ->
  find_available_position vf L k u = Some s ->
  engine_inv L (fst (commit_clip fs i vf s L f)) (sel ++ [snd (commit_clip fs i vf s L f)]).
Proof.
  intros HL [Hu0 Hu1] [Hreach Hsel] Hi Hcan Hfind. simpl.
  assert (Hr : reachable vf) by (eapply Forall_forall; [exact Hreach|]; eapply nth_error_In; eauto).
  pose proof (reachable_commit vf L k u s Hr HL Hu0 Hu1 Hcan Hfind) as Hr'.
  destruct (commit_ok vf L k u s (reachable_ok _ Hr) HL Hu0 Hu1 Hcan Hfind)
    as (_ & Hused & Hprop).
  set (vf' := add_used_range vf s L) in *.
  assert (Hilen : (i < List.length fs)%nat) by (apply nth_error_Some; congruence).
  assert (Hin' : In vf' (replace_nth i vf' fs))
    by (eapply nth_error_In; apply nth_error_replace_nth_eq; exact Hilen).
  split.
  - apply Forall_forall. intros z Hz. apply In_replace_nth in Hz as [Hz| ->]; [|exact Hr'].
    eapply Forall_forall; eassumption.
  - apply Forall_app. split.
    + eapply Forall_impl; [|exact Hsel]. intros c [Hd (w & Hw & Hp & Ht & Hu & Hb)].
      split; [exact Hd|].
      destruct (In_replace_nth_keep i vf' vf w fs Hi Hw) as [Hw'| ->].
      * exists w. auto.
      * exists vf'. unfold proper in *. rewrite Hused.
        repeat split; simpl; tauto.
    + constructor; [|constructor]. split; [reflexivity|].
      exists vf'. rewrite Hused. destruct Hprop as (? & ? & ?).
      repeat split; simpl; auto.
Qed.

(** *** One iteration of each policy *)

Lemma fold_left_ind {A B} (P : B -> Prop) (f : B -> A -> B) (l : list A) (b : B) :
  P b -> (forall b a, In a l -> P b -> P (f b a)) -> P (fold_left f l b).
Proof.
  revert b; induction l as [|a t IH]; intros b Hb Hf; simpl; [exact Hb|].
  apply IH; [apply Hf; simpl; auto|]. intros b' a' Ha'. apply Hf. simpl; auto.
Qed.

(** What an iteration may do: stop, go round unchanged, or commit a start
    found by [find_available_position] on a file passing
    [can_extract_clip] and append its clip. *)
Definition iter_effect (needed : Z) (L : Q) (fs : list VideoFile) (sel : list ClipInfo.t)
    (fs' : list VideoFile) (sel' : list ClipInfo.t) : Prop :=
  (fs' = fs /\ sel' = sel) \/
  ((Z.of_nat (List.length sel) < needed)%Z /\
   exists i vf k u s f, valid_u u /\ nth_error fs i = Some vf /\
     can_extract_clip vf L = true /\ find_available_position vf L k u = Some s /\
     fs' = fst (commit_clip fs i vf s L f) /\ sel' = sel ++ [snd (commit_clip fs i vf s L f)]).

Lemma plain_iter_effect needed L st d st' :
  valid_u (pick_u d) -> plain_iter needed L st d = Next st' ->
  iter_effect needed L (ps_files st) (ps_selected st) (ps_files st') (ps_selected st').
Proof.
  intros Hu. unfold plain_iter.
  destruct (Z.ltb_spec (Z.of_nat (List.length (ps_selected st))) needed) as [Hlt|_];
    [|discriminate].
  destruct (available_files (ps_files st) L) as [|p l] eqn:Hav; [discriminate|].
  destruct (choice (pick_file d) (top_half (p :: l))) as [[i vf]|] eqn:Hc; [|discriminate].
  rewrite <- Hav in Hc. apply choice_top_half in Hc as [Hi Hcan].
  destruct (find_available_position vf L (pick_range d) (pick_u d)) as [s|] eqn:Hf.
  - intros H. injection H as <-. right. split; [exact Hlt|].
    exists i, vf, (pick_range d), (pick_u d), s, zero_features. simpl. auto 7.
  - intros H. injection H as <-. left. auto.
Qed.

Definition smart_draw_ok (d : SmartDraw) : Prop :=
  (forall pos t, valid_u (snd (fst (try_draw d pos t)))) /\ valid_u (fb_u d).

Definition best_ok (L : Q) (av : list (nat * VideoFile)) (best : option Best) : Prop :=
  forall b, best = Some b -> In (best_index b, best_file b) av /\
    exists k u, valid_u u /\ find_available_position (best_file b) L k u = Some (best_start b).

Lemma eval_files_ok dw sel L d av :
  smart_draw_ok d -> best_ok L av (eval_files dw sel L d av).
Proof.
  intros [Htry _]. unfold eval_files.
  apply fold_left_ind; [intros b H; discriminate|].
  intros best [pos [i vf]] Hin Hbest. apply in_combine_r in Hin.
  apply fold_left_ind; [exact Hbest|].
  intros b t _ Hb. unfold eval_try.
  specialize (Htry pos t).
  destruct (try_draw d pos t) as [[kr u] f]. simpl in Htry.
  destruct (find_available_position vf L kr u) as [s|] eqn:Hf; [|exact Hb].
  assert (Hnew : best_ok L av (Some (mkBest i vf s f (final_score dw sel f)))).
  { intros b' H. injection H as <-. simpl. split; [exact Hin|]. exists kr, u. auto. }
  destruct b as [b0|]; [|exact Hnew].
  destruct (Qlt_bool (best_score b0) (final_score dw sel f)); [exact Hnew|exact Hb].
Qed.

Lemma smart_iter_effect dw needed L st d st' :
  smart_draw_ok d -> smart_iter dw needed L st d = Next st' ->
  iter_effect needed L (ss_files st) (ss_selected st) (ss_files st') (ss_selected st').
Proof.
  intros Hd. pose proof Hd as [_ Hfb]. unfold smart_iter.
  destruct (Z.ltb_spec (Z.of_nat (List.length (ss_selected st))) needed) as [Hlt|_];
    [|discriminate].
  destruct (available_files (ss_files st) L) as [|p l] eqn:Hav; [discriminate|].
  destruct (eval_files dw (ss_features st) L d (p :: l)) as [b|] eqn:He.
  - intros H. injection H as <-. right. split; [exact Hlt|].
    destruct (eval_files_ok dw (ss_features st) L d (p :: l) Hd b He)
      as [Hin (k & u & Hu & Hf)].
    rewrite <- Hav in Hin. apply available_files_In in Hin as [Hi Hcan].
    exists (best_index b), (best_file b), k, u, (best_start b), (best_features b).
    unfold smart_commit. destruct (commit_clip _ _ _ _ _ _) eqn:Hc. simpl.
    destruct Hu. repeat split; auto.
  - destruct (choice (fb_pick_file d) (top_half (p :: l))) as [[i vf]|] eqn:Hc;
      [|discriminate].
    rewrite <- Hav in Hc. apply choice_top_half in Hc as [Hi Hcan].
    destruct (find_available_position vf L (fb_pick_range d) (fb_u d)) as [s|] eqn:Hf.
    + intros H. injection H as <-. right. split; [exact Hlt|].
      exists i, vf, (fb_pick_range d), (fb_u d), s, (fb_features d).
      unfold smart_commit. destruct (commit_clip _ _ _ _ _ _) eqn:Hc. simpl.
      destruct Hfb. repeat split; auto.
    + intros H. injection H as <-. left. auto.
Qed.

(** *** Whole runs *)

Lemma plain_loop_result (I : list VideoFile -> list ClipInfo.t -> Prop)
    fuel needed L rng n st res fs :
  (forall m, valid_u (pick_u (rng m))) ->
  (forall fs sel fs' sel', I fs sel -> iter_effect needed L fs sel fs' sel' -> I fs' sel') ->
  I (ps_files st) (ps_selected st) ->
  plain_loop fuel needed L rng n st = Some (res, fs) ->
  exists sel, I fs sel /\ res = sort_clips sel.
Proof.
  intros Hrng Hstep. revert n st; induction fuel as [|fuel IH]; intros n st Hst; simpl;
    [discriminate|].
  destruct (plain_iter needed L st (rng n)) as [|st'] eqn:Hit.
  - intros H. injection H as <- <-. eauto.
  - apply IH. eapply Hstep; [exact Hst|]. eapply plain_iter_effect; [apply Hrng|exact Hit].
Qed.

Lemma smart_loop_result (I : list VideoFile -> list ClipInfo.t -> Prop)
    fuel dw needed L rng n st res fs :
  (forall m, smart_draw_ok (rng m)) ->
  (forall fs sel fs' sel', I fs sel -> iter_effect needed L fs sel fs' sel' -> I fs' sel') ->
  I (ss_files st) (ss_selected st) ->
  smart_loop fuel dw needed L rng n st = Some (res, fs) ->
  exists sel, I fs sel /\ res = sort_clips sel.
Proof.
  intros Hrng Hstep. revert n st; induction fuel as [|fuel IH]; intros n st Hst; simpl;
    [discriminate|].
  destruct (smart_iter dw needed L st (rng n)) as [|st'] eqn:Hit.
  - intros H. injection H as <- <-. eauto.
  - apply IH. eapply Hstep; [exact Hst|]. eapply smart_iter_effect; [apply Hrng|exact Hit].
Qed.

(** The invariant of a run: the engine invariant, and never more clips
    than [num_clips_needed]. *)
Definition run_inv (needed : Z) (L : Q) (fs : list VideoFile) (sel : list ClipInfo.t) : Prop :=
  engine_inv L fs sel /\ (sel = [] \/ (Z.of_nat (List.length sel) <= needed)%Z).

Lemma iter_effect_run_inv needed L fs sel fs' sel' :
  0 < L -> run_inv needed L fs sel -> iter_effect needed L fs sel fs' sel' ->
  run_inv needed L fs' sel'.
Proof.
  intros HL Hinv [[-> ->]|[Hlt (i & vf & k & u & s & f & Hu & Hi & Hcan & Hf & -> & ->)]];
    [exact Hinv|].
  destruct Hinv as [Hinv _]. split.
  - eapply commit_clip_inv; eassumption.
  - right. rewrite length_app. simpl. lia.
Qed.

(** What every run of either policy returns, from files the engine could
    have produced (in particular fresh ones). *)
Lemma selection_run_inv fuel rng srng dw video_files L T res fs :
  0 < L -> (forall m, valid_u (pick_u (rng m))) -> (forall m, smart_draw_ok (srng m)) ->
  Forall reachable video_files ->
  (select_clips fuel rng video_files L T = Some (res, fs) \/
   select_clips_smart fuel srng video_files L T dw = Some (res, fs)) ->
  exists sel, run_inv (num_clips_needed video_files L T) L fs sel /\ res = sort_clips sel.
Proof.
  intros HL Hrng Hsrng Hreach [H|H].
  - eapply plain_loop_result; [exact Hrng| |simpl|exact H].
    + intros. eapply iter_effect_run_inv; eassumption.
    + split; [split; [exact Hreach|constructor]|left; reflexivity].
  - eapply smart_loop_result; [exact Hsrng| |simpl|exact H].
    + intros. eapply iter_effect_run_inv; eassumption.
    + split; [split; [exact Hreach|constructor]|left; reflexivity].
Qed.

Lemma sort_clips_perm l : Permutation l (sort_clips l).
Proof. apply stable_sort_perm. Qed.

(** ** Orders *)

Lemma string_compare_lt_trans a b c :
  String.compare a b = Lt -> String.compare b c = Lt -> String.compare a c = Lt.
Proof.
  revert b c; induction a as [|x a IH]; intros [|y b] [|z c]; simpl; try discriminate; auto.
  unfold Ascii.compare.
  destruct (N.compare_spec (N_of_ascii x) (N_of_ascii y)) as [Exy|Exy|Exy];
  destruct (N.compare_spec (N_of_ascii y) (N_of_ascii z)) as [Eyz|Eyz|Eyz];
    intros H1 H2; try discriminate.
  - rewrite Exy, Eyz, N.compare_refl. eauto.
  - rewrite Exy, (proj2 (N.compare_lt_iff _ _) Eyz). reflexivity.
  - rewrite <- Eyz, (proj2 (N.compare_lt_iff _ _) Exy). reflexivity.
  - rewrite (proj2 (N.compare_lt_iff _ _) (N.lt_trans _ _ _ Exy Eyz)). reflexivity.
Qed.

(** The order [sort_clips] sorts by: [(file_timestamp, start)]. *)
Definition clip_le (x y : ClipInfo.t) : Prop :=
  String.ltb (ClipInfo.file_timestamp x) (ClipInfo.file_timestamp y) = true \/
  (ClipInfo.file_timestamp x = ClipInfo.file_timestamp y /\ ClipInfo.start x <= ClipInfo.start y).

(** The order of timestamps alone. *)
Definition timestamp_le (x y : ClipInfo.t) : Prop :=
  String.leb (ClipInfo.file_timestamp x) (ClipInfo.file_timestamp y) = true.

Lemma sort_clips_sorted l : StronglySorted clip_le (sort_clips l).
Proof.
  apply stable_sort_sorted; unfold clip_le, clip_ltb.
  - intros x y H. apply Bool.orb_true_iff in H as [H|H]; [now left|].
    apply Bool.andb_true_iff in H as [H1 H2]. apply String.eqb_eq in H1.
    apply Qlt_bool_iff in H2. right. split; [exact H1|lra].
  - intros x y H. apply Bool.orb_false_iff in H as [H1 H2].
    unfold String.ltb in *.
    destruct (String.compare (ClipInfo.file_timestamp y) (ClipInfo.file_timestamp x)) eqn:E.
    + apply String.compare_eq_iff in E. right. split; [exact E|].
      rewrite E, String.eqb_refl in H2. simpl in H2. now apply Qlt_bool_false.
    + now left.
    + rewrite String.compare_antisym, E in H1. discriminate.
  - intros x y z [Hxy|[Exy Hxy]] [Hyz|[Eyz Hyz]]; unfold String.ltb in *.
    + left. destruct (String.compare _ _) eqn:E1 in Hxy; try discriminate.
      destruct (String.compare _ _) eqn:E2 in Hyz; try discriminate.
      now rewrite (string_compare_lt_trans _ _ _ E1 E2).
    + left. now rewrite <- Eyz.
    + left. now rewrite Exy.
    + right. split; [congruence|lra].
Qed.

Lemma string_compare_refl a : String.compare a a = Eq.
Proof.
  pose proof (String.compare_antisym a a) as H.
  destruct (String.compare a a); simpl in H; congruence.
Qed.

Lemma clip_le_timestamp_le x y : clip_le x y -> timestamp_le x y.
Proof.
  unfold clip_le, timestamp_le, String.ltb, String.leb.
  intros [H|[H _]].
  - destruct (String.compare _ _); congruence.
  - rewrite H, string_compare_refl. reflexivity.
Qed.

(** ** The transition optimizer *)

Lemma closest_to_spec m x rest :
  In (closest_to m x rest) (x :: rest) /\
  forall y, In y (x :: rest) -> Qabs (closest_to m x rest - m) <= Qabs (y - m).
Proof.
  revert x; induction rest as [|y r IH]; intros x.
  - simpl. split; [auto|]. intros y [<-|[]]. apply Qle_refl.
  - set (b := if Qlt_bool (Qabs (y - m)) (Qabs (x - m)) then y else x).
    assert (Hstep : closest_to m x (y :: r) = closest_to m b r) by reflexivity.
    rewrite Hstep.
    assert (Hb : (b = x \/ b = y) /\ Qabs (b - m) <= Qabs (x - m) /\ Qabs (b - m) <= Qabs (y - m)).
    { unfold b. destruct (Qlt_bool (Qabs (y - m)) (Qabs (x - m))) eqn:E.
      - apply Qlt_bool_iff in E. split; [auto|]. split; [lra|apply Qle_refl].
      - apply Qlt_bool_false in E. split; [auto|]. split; [apply Qle_refl|exact E]. }
    destruct Hb as [Hbxy [Hbx Hby]].
    destruct (IH b) as [Hin Hmin]. split.
    + destruct Hin as [<-|Hin]; [destruct Hbxy as [-> | ->]; simpl; auto|simpl; auto].
    + intros z [<-|[<-|Hz]].
      * eapply Qle_trans; [apply Hmin; simpl; auto|exact Hbx].
      * eapply Qle_trans; [apply Hmin; simpl; auto|exact Hby].
      * apply Hmin. simpl; auto.
Qed.

Lemma Qle_bool_Qeq x y z : x == y -> Qle_bool x z = Qle_bool y z.
Proof.
  intros H. destruct (Qle_bool y z) eqn:E.
  - apply Qle_bool_iff. apply Qle_bool_iff in E. rewrite H. exact E.
  - apply Bool.not_true_iff_false. intros Hx. apply Qle_bool_iff in Hx.
    rewrite H in Hx. apply Qle_bool_iff in Hx. congruence.
Qed.

(** [optimize_clip] compares the offset [c] of the candidate closest to
    the midpoint with [0.2 * duration]. *)
Lemma optimize_clip_cases clip draws :
  draws <> [] ->
  exists c, In c draws /\
    (forall y, In y draws ->
       Qabs (c - ClipInfo.duration clip / 2) <= Qabs (y - ClipInfo.duration clip / 2)) /\
    optimize_clip clip draws =
      if Qle_bool (Qabs c) (ClipInfo.duration clip * (2 # 10)) then
        ClipInfo.mk (ClipInfo.file clip) (ClipInfo.start clip + c) (ClipInfo.duration clip)
          (ClipInfo.file_timestamp clip) (ClipInfo.scene_score clip)
          (ClipInfo.motion_score clip) (ClipInfo.color_variance clip)
      else clip.
Proof.
  intros Hne. pose proof (stable_sort_perm Qlt_bool draws) as Hperm.
  unfold optimize_clip, detect_scene_changes.
  destruct (stable_sort Qlt_bool draws) as [|x rest] eqn:Hs.
  - symmetry in Hperm. apply Permutation_nil in Hperm. contradiction.
  - destruct (closest_to_spec (ClipInfo.duration clip / 2) x rest) as [Hin Hmin].
    exists (closest_to (ClipInfo.duration clip / 2) x rest). split; [|split].
    + eapply Permutation_in; [symmetry; exact Hperm|exact Hin].
    + intros y Hy. apply Hmin. eapply Permutation_in; [exact Hperm|exact Hy].
    + unfold find_optimal_transition_point.
      rewrite (Qle_bool_Qeq _ (Qabs (closest_to (ClipInfo.duration clip / 2) x rest)));
        [reflexivity|]. apply Qabs_wd. ring.
Qed.

(** With candidates in [[0, duration]], a clip keeps its fields but its
    start, which moves forward by at most [0.2 * duration]. *)
Definition shifted_by_at_most_fifth (c c' : ClipInfo.t) : Prop :=
  ClipInfo.file c' = ClipInfo.file c /\ ClipInfo.duration c' = ClipInfo.duration c /\
  ClipInfo.file_timestamp c' = ClipInfo.file_timestamp c /\
  ClipInfo.start c <= ClipInfo.start c' /\
  ClipInfo.start c' <= ClipInfo.start c + ClipInfo.duration c * (2 # 10).

Lemma optimize_clip_window clip draws :
  0 < ClipInfo.duration clip -> Forall (fun x => 0 <= x) draws ->
  shifted_by_at_most_fifth clip (optimize_clip clip draws).
Proof.
  intros Hd Hdraws.
  assert (Hkeep : shifted_by_at_most_fifth clip clip).
  { repeat split; try reflexivity; try apply Qle_refl. nra. }
  destruct draws as [|x0 r0].
  - unfold optimize_clip, detect_scene_changes.
    change (stable_sort Qlt_bool []) with (@nil Q). unfold find_optimal_transition_point.
    destruct (Qle_bool _ _) eqn:E; [|exact Hkeep].
    apply Qle_bool_iff in E. exfalso.
    assert (Hq : ClipInfo.start clip + ClipInfo.duration clip / 2 - ClipInfo.start clip
                 == ClipInfo.duration clip * (1 # 2)) by (field; discriminate).
    rewrite Hq in E. rewrite Qabs_pos in E; [nra|nra].
  - destruct (optimize_clip_cases clip (x0 :: r0)) as (c & Hc & _ & ->); [discriminate|].
    destruct (Qle_bool _ _) eqn:E; [|exact Hkeep].
    apply Qle_bool_iff in E.
    assert (Hc0 : 0 <= c) by (eapply Forall_forall; eassumption).
    rewrite Qabs_pos in E by exact Hc0.
    repeat split; simpl; try reflexivity; lra.
Qed.

Lemma optimize_from_timestamps i sd l :
  map ClipInfo.file_timestamp (optimize_from i sd l) = map ClipInfo.file_timestamp l.
Proof.
  revert i; induction l as [|c l IH]; intros i; simpl; [reflexivity|].
  rewrite IH. f_equal. unfold optimize_clip. destruct (Qle_bool _ _); reflexivity.
Qed.

Lemma StronglySorted_map_eq {A B} (f : A -> B) (R : B -> B -> Prop) l1 l2 :
  map f l1 = map f l2 ->
  StronglySorted (fun x y => R (f x) (f y)) l1 -> StronglySorted (fun x y => R (f x) (f y)) l2.
Proof.
  revert l2; induction l1 as [|a t IH]; intros [|b l2] Heq Hs; simpl in Heq;
    try discriminate; [constructor|].
  injection Heq as Hab Ht. inversion Hs as [|? ? Hst Hall]; subst.
  constructor; [now apply IH|].
  clear -Hab Ht Hall. revert l2 Ht; induction t as [|c t IH]; intros [|d l2] Ht;
    simpl in Ht; try discriminate; constructor.
  - injection Ht as Hcd _. inversion Hall. congruence.
  - injection Ht as _ Ht. inversion Hall. now apply IH.
Qed.

(** ** [can_extract_clip] against [find_available_position] *)

Lemma Qle_bool_true x y : x <= y -> Qle_bool x y = true.
Proof. apply Qle_bool_iff. Qed.

Lemma Qle_bool_false_intro x y : y < x -> Qle_bool x y = false.
Proof. intros H. apply Bool.not_true_iff_false. intros E. apply Qle_bool_iff in E. lra. Qed.

Lemma Qlt_bool_false_intro x y : y <= x -> Qlt_bool x y = false.
Proof. intros H. unfold Qlt_bool. rewrite (Qle_bool_true _ _ H). reflexivity. Qed.

Lemma last_in {A} (l : list A) d : l <> [] -> In (last l d) l.
Proof.
  induction l as [|a t IH]; intros H; [congruence|].
  destruct t as [|b t]; [simpl; auto|]. right. apply IH. discriminate.
Qed.

Lemma some_inner_gap_mid need pre x y post :
  need <= fst y - snd x -> some_inner_gap need (pre ++ x :: y :: post) = true.
Proof.
  intros H. induction pre as [|a pre IH].
  - simpl. rewrite (Qle_bool_true _ _ H). reflexivity.
  - change ((a :: pre) ++ x :: y :: post) with (a :: (pre ++ x :: y :: post)).
    destruct (pre ++ x :: y :: post) as [|b t] eqn:E; [destruct pre; discriminate|].
    change (some_inner_gap need (a :: b :: t))
      with (Qle_bool need (fst b - snd a) || some_inner_gap need (b :: t)).
    rewrite IH. apply Bool.orb_true_r.
Qed.

(** One of the first three tests of [can_extract_clip] succeeds. *)
Lemma can_extract_clip_intro vf L :
  L <= duration vf ->
  (match sorted_ranges vf with (b, _) :: _ => L <= b | [] => False end \/
   some_inner_gap (L + min_gap vf * 2) (sorted_ranges vf) = true \/
   (sorted_ranges vf <> [] /\
    L + min_gap vf <= duration vf - snd (last (sorted_ranges vf) (0, 0)))) ->
  can_extract_clip vf L = true.
Proof.
  intros HD H. unfold can_extract_clip. rewrite (Qlt_bool_false_intro _ _ HD).
  cbv zeta. destruct (sorted_ranges vf) as [|[b e] t].
  - destruct H as [[]|[H|[H _]]]; [discriminate|congruence].
  - destruct H as [H|[H|[_ H]]].
    + rewrite (Qle_bool_true _ _ H). reflexivity.
    + rewrite H. destruct (Qle_bool L b); reflexivity.
    + rewrite (Qle_bool_true _ _ H).
      repeat match goal with |- context [if ?c then _ else _] => destruct c end;
        reflexivity.
Qed.

Lemma find_some_can_extract vf L k u s :
  reachable vf -> 0 < L -> used_ranges vf <> [] ->
  find_available_position vf L k u = Some s -> can_extract_clip vf L = true.
Proof.
  intros Hr HL Hne. destruct (reachable_ok vf Hr) as [Hg Hok].
  pose proof (ranges_ok_sorted vf Hok) as [Hp Hs].
  unfold find_available_position. destruct (used_ranges vf) eqn:Hu; [congruence|].
  destruct (choice k (available_ranges vf L)) as [[lo hi]|] eqn:Hc; [|discriminate].
  intros _. apply choice_In in Hc. unfold available_ranges in Hc.
  rewrite Hg in Hc, Hs. apply can_extract_clip_intro; rewrite ?Hg.
  - (* the candidate fits inside the file *)
    apply in_app_or in Hc as [Hc|Hc]; [|apply in_app_or in Hc as [Hc|Hc]].
    + unfold range_before in Hc. destruct (sorted_ranges vf) as [|[b e] t]; [destruct Hc|].
      destruct (Qle_bool (L + 1) b) eqn:E; [|destruct Hc]. apply Qle_bool_iff in E.
      inversion Hp as [|? ? (Hb1 & Hb2 & Hb3) _]; subst. simpl in *. lra.
    + destruct (in_ranges_between _ _ _ _ _ Hc) as (pre & x & y & post & Heq & _ & _ & Hgap).
      rewrite Heq in Hp.
      assert (Hpx : proper (duration vf) x) by (eapply Forall_forall; [exact Hp|]; apply in_or_app; simpl; auto).
      assert (Hpy : proper (duration vf) y) by (eapply Forall_forall; [exact Hp|]; apply in_or_app; simpl; auto).
      destruct Hpx as (? & ? & ?), Hpy as (? & ? & ?). lra.
    + unfold range_after in Hc. destruct (sorted_ranges vf) as [|a0 r0] eqn:Hsr; [destruct Hc|].
      rewrite <- Hsr in Hc, Hp.
      destruct (Qle_bool L (duration vf - (snd (last (sorted_ranges vf) (0, 0)) + 1))) eqn:E;
        [|destruct Hc].
      apply Qle_bool_iff in E.
      assert (Hpl : proper (duration vf) (last (sorted_ranges vf) (0, 0))).
      { eapply Forall_forall; [exact Hp|]. apply last_in. congruence. }
      destruct Hpl as (? & ? & ?). lra.
  - apply in_app_or in Hc as [Hc|Hc]; [|apply in_app_or in Hc as [Hc|Hc]].
    + left. unfold range_before in Hc. destruct (sorted_ranges vf) as [|[b e] t]; [destruct Hc|].
      destruct (Qle_bool (L + 1) b) eqn:E; [|destruct Hc]. apply Qle_bool_iff in E. lra.
    + right; left.
      destruct (in_ranges_between _ _ _ _ _ Hc) as (pre & x & y & post & Heq & _ & _ & Hgap).
      rewrite Heq. apply some_inner_gap_mid. lra.
    + right; right. unfold range_after in Hc.
      destruct (sorted_ranges vf) as [|a0 r0] eqn:Hsr; [destruct Hc|].
      rewrite <- Hsr in Hc |- *.
      destruct (Qle_bool L (duration vf - (snd (last (sorted_ranges vf) (0, 0)) + 1))) eqn:E;
        [|destruct Hc].
      apply Qle_bool_iff in E. split; [congruence|lra].
Qed.

Lemma can_extract_clip_fresh vf L :
  used_ranges vf = [] -> 0 <= min_gap vf ->
  (can_extract_clip vf L = true <-> L + min_gap vf <= duration vf).
Proof.
  intros Hu Hg. unfold can_extract_clip, sorted_ranges. rewrite Hu.
  change (stable_sort range_ltb []) with (@nil range). cbv beta iota zeta.
  unfold get_available_duration. rewrite Hu.
  destruct (Qlt_bool (duration vf) L) eqn:E.
  - apply Qlt_bool_iff in E. split; [discriminate|intros; lra].
  - apply Qle_bool_iff.
Qed.

Lemma find_fresh vf L k u :
  used_ranges vf = [] ->
  find_available_position vf L k u = Some (uniform 0 (duration vf - L) u).
Proof. intros Hu. unfold find_available_position. rewrite Hu. reflexivity. Qed.

(** ** [get_available_duration] *)

Lemma sum_lengths_perm l l' : Permutation l l' -> sum_lengths l == sum_lengths l'.
Proof.
  unfold sum_lengths. induction 1; cbn [fold_right].
  - reflexivity.
  - rewrite IHPermutation. reflexivity.
  - ring.
  - rewrite IHPermutation1. exact IHPermutation2.
Qed.

Lemma reachable_duration vf : reachable vf -> 0 <= duration vf.
Proof. induction 1; [assumption|exact IHreachable]. Qed.

Lemma inject_Z_of_nat_succ n :
  inject_Z (Z.of_nat (S n)) == inject_Z (Z.of_nat n) + 1.
Proof. rewrite Nat2Z.inj_succ, <- Z.add_1_r, inject_Z_plus. reflexivity. Qed.

Lemma inject_Z_of_nat_nonneg n : 0 <= inject_Z (Z.of_nat n).
Proof. change 0 with (inject_Z 0). rewrite <- Zle_Qle. lia. Qed.

(** Sorted separated ranges use, with their gaps, at most what follows the
    start of the first. *)
Lemma sum_lengths_sorted_bound D g x t :
  0 < g -> StronglySorted le_start (x :: t) -> ranges_ok D g (x :: t) ->
  sum_lengths (x :: t) + g * inject_Z (Z.of_nat (List.length t)) <= D - fst x.
Proof.
  intros Hg. revert x; induction t as [|y t IH]; intros x Hs [Hp Hsep].
  - inversion Hp as [|? ? (H1 & H2 & H3) _]; subst.
    change (sum_lengths [x]) with (snd x - fst x + 0).
    change (inject_Z (Z.of_nat (List.length (@nil range)))) with 0. lra.
  - assert (E : sum_lengths (x :: y :: t) = snd x - fst x + sum_lengths (y :: t)) by reflexivity.
    rewrite E. change (List.length (y :: t)) with (S (List.length t)).
    rewrite inject_Z_of_nat_succ.
    inversion Hs as [|? ? Hs' Hle]; subst.
    inversion Hp as [|? ? Hpx Hp']; subst.
    inversion Hsep as [|? ? Hsx Hsep']; subst.
    inversion Hp' as [|? ? Hpy _]; subst.
    inversion Hle as [|? ? Hxy _]; subst.
    inversion Hsx as [|? ? Hxy' _]; subst.
    pose proof (IH y Hs' (conj Hp' Hsep')) as Hb.
    destruct Hpx as (? & ? & ?), Hpy as (? & ? & ?).
    pose proof (sorted_sep_before g x y Hg ltac:(assumption) Hxy Hxy').
    lra.
Qed.

Lemma get_available_duration_nonneg vf : reachable vf -> 0 <= get_available_duration vf.
Proof.
  intros Hr. pose proof (reachable_duration vf Hr) as HD.
  destruct (reachable_ok vf Hr) as [Hg Hok].
  unfold get_available_duration.
  destruct (used_ranges vf) as [|r rs] eqn:Hu; [exact HD|].
  rewrite <- Hu in Hok |- *. rewrite Hg.
  destruct (sorted_ranges vf) as [|x t] eqn:Hsr.
  - pose proof (sorted_ranges_perm vf) as Hperm. rewrite Hsr, Hu in Hperm.
    apply Permutation_sym, Permutation_nil in Hperm. discriminate.
  - pose proof (sorted_ranges_perm vf) as Hperm. rewrite Hsr in Hperm.
    pose proof (ranges_ok_sorted vf Hok) as Hok'. rewrite Hsr, Hg in Hok'.
    pose proof (sorted_ranges_sorted vf) as Hs. rewrite Hsr in Hs.
    pose proof (sum_lengths_sorted_bound _ 1 x t ltac:(reflexivity) Hs Hok') as Hb.
    destruct Hok' as [Hp _]. inversion Hp as [|? ? (Hx1 & _ & _) _]; subst.
    rewrite (sum_lengths_perm _ _ Hperm).
    rewrite (Permutation_length Hperm). simpl List.length.
    replace (Z.of_nat (S (List.length t)) - 1)%Z with (Z.of_nat (List.length t)) by lia.
    pose proof (inject_Z_of_nat_nonneg (List.length t)).
    destruct (Nat.ltb 1 (S (List.length t))); lra.
Qed.

(** ** Lengths and order of the returned lists *)

(** What an iteration does to the selected clips, with no assumption on
    the draws. *)
Definition len_step (needed : Z) (sel sel' : list ClipInfo.t) : Prop :=
  sel' = sel \/
  ((Z.of_nat (List.length sel) < needed)%Z /\ List.length sel' = S (List.length sel)).

Lemma plain_iter_len needed L st d st' :
  plain_iter needed L st d = Next st' -> len_step needed (ps_selected st) (ps_selected st').
Proof.
  unfold plain_iter.
  destruct (Z.ltb_spec (Z.of_nat (List.length (ps_selected st))) needed) as [Hlt|_];
    [|discriminate].
  destruct (available_files (ps_files st) L) as [|p l]; [discriminate|].
  destruct (choice (pick_file d) (top_half (p :: l))) as [[i vf]|]; [|discriminate].
  destruct (find_available_position vf L (pick_range d) (pick_u d)) as [s|].
  - intros H. injection H as <-. right. split; [exact Hlt|].
    simpl. rewrite length_app. simpl. lia.
  - intros H. injection H as <-. left. reflexivity.
Qed.

Lemma smart_iter_len dw needed L st d st' :
  smart_iter dw needed L st d = Next st' -> len_step needed (ss_selected st) (ss_selected st').
Proof.
  unfold smart_iter.
  destruct (Z.ltb_spec (Z.of_nat (List.length (ss_selected st))) needed) as [Hlt|_];
    [|discriminate].
  destruct (available_files (ss_files st) L) as [|p l]; [discriminate|].
  assert (Hc : forall i vf s f,
    len_step needed (ss_selected st) (ss_selected (smart_commit st i vf s L f))).
  { intros. right. split; [exact Hlt|]. simpl. rewrite length_app. simpl. lia. }
  destruct (eval_files dw (ss_features st) L d (p :: l)) as [b|].
  - intros H. injection H as <-. apply Hc.
  - destruct (choice (fb_pick_file d) (top_half (p :: l))) as [[i vf]|]; [|discriminate].
    destruct (find_available_position vf L (fb_pick_range d) (fb_u d)) as [s|].
    + intros H. injection H as <-. apply Hc.
    + intros H. injection H as <-. left. reflexivity.
Qed.

Lemma plain_loop_len (P : list ClipInfo.t -> Prop) fuel needed L rng n st res fs :
  (forall sel sel', P sel -> len_step needed sel sel' -> P sel') ->
  P (ps_selected st) ->
  plain_loop fuel needed L rng n st = Some (res, fs) ->
  exists sel, P sel /\ res = sort_clips sel.
Proof.
  intros Hstep. revert n st; induction fuel as [|fuel IH]; intros n st Hst; simpl;
    [discriminate|].
  destruct (plain_iter needed L st (rng n)) as [|st'] eqn:Hit.
  - intros H. injection H as <- <-. eauto.
  - apply IH. eapply Hstep; [exact Hst|]. eapply plain_iter_len; exact Hit.
Qed.

Lemma smart_loop_len (P : list ClipInfo.t -> Prop) fuel dw needed L rng n st res fs :
  (forall sel sel', P sel -> len_step needed sel sel' -> P sel') ->
  P (ss_selected st) ->
  smart_loop fuel dw needed L rng n st = Some (res, fs) ->
  exists sel, P sel /\ res = sort_clips sel.
Proof.
  intros Hstep. revert n st; induction fuel as [|fuel IH]; intros n st Hst; simpl;
    [discriminate|].
  destruct (smart_iter dw needed L st (rng n)) as [|st'] eqn:Hit.
  - intros H. injection H as <- <-. eauto.
  - apply IH. eapply Hstep; [exact Hst|]. eapply smart_iter_len; exact Hit.
Qed.

(** The returned list of either policy is a sorted permutation of clips
    whose number never exceeds [max 0 num_clips_needed]. *)
Lemma selection_sorted_len fuel rng srng dw video_files L T res fs :
  (select_clips fuel rng video_files L T = Some (res, fs) \/
   select_clips_smart fuel srng video_files L T dw = Some (res, fs)) ->
  exists sel, (Z.of_nat (List.length sel) <= Z.max 0 (num_clips_needed video_files L T))%Z /\
    res = sort_clips sel.
Proof.
  assert (Hstep : forall sel sel',
    (Z.of_nat (List.length sel) <= Z.max 0 (num_clips_needed video_files L T))%Z ->
    len_step (num_clips_needed video_files L T) sel sel' ->
    (Z.of_nat (List.length sel') <= Z.max 0 (num_clips_needed video_files L T))%Z).
  { intros sel sel' H [->|[Hlt Hlen]]; [exact H|]. rewrite Hlen. lia. }
  intros [H|H].
  - eapply plain_loop_len; [exact Hstep| |exact H]. simpl. lia.
  - eapply smart_loop_len; [exact Hstep| |exact H]. simpl. lia.
Qed.

Lemma total_possible_clips_nonneg video_files L :
  0 < L -> (0 <= total_possible_clips video_files L)%Z.
Proof.
  intros HL. unfold total_possible_clips.
  induction video_files as [|vf fs IH]; cbn [filter map fold_right]; [lia|].
  destruct (Qle_bool L (duration vf)) eqn:E; cbn [map fold_right]; [|exact IH].
  apply Qle_bool_iff in E.
  assert (H0 : 0 <= duration vf / L).
  { unfold Qdiv. apply Qmult_le_0_compat; [lra|]. apply Qinv_le_0_compat. lra. }
  pose proof (Qfloor_resp_le 0 _ H0) as Hf. change (Qfloor 0) with 0%Z in Hf. lia.
Qed.

Lemma ceiling_pos L T : 0 < L -> 0 < T -> (1 <= Qceiling (T / L))%Z.
Proof.
  intros HL HT.
  assert (H0 : 0 < T / L).
  { unfold Qdiv. apply Qmult_lt_0_compat; [exact HT|]. apply Qinv_lt_0_compat. exact HL. }
  pose proof (Qle_ceiling (T / L)) as Hc.
  assert (H1 : 0 < inject_Z (Qceiling (T / L))) by lra.
  change 0 with (inject_Z 0) in H1. rewrite <- Zlt_Qlt in H1. lia.
Qed.

Lemma available_files_short fs L :
  Forall (fun vf => duration vf < L) fs -> available_files fs L = [].
Proof.
  intros Hall. unfold available_files.
  destruct (filter _ _) as [|[i vf] l] eqn:E; [reflexivity|].
  assert (Hin : In (i, vf) (filter (fun p => can_extract_clip (snd p) L)
                              (combine (seq 0 (List.length fs)) fs))) by (rewrite E; left; reflexivity).
  apply filter_In in Hin as [Hin Hcan]. apply in_combine_r in Hin.
  pose proof (proj1 (Forall_forall _ _) Hall vf Hin) as Hlt. simpl in Hcan.
  unfold can_extract_clip in Hcan.
  rewrite (proj2 (Qlt_bool_iff _ _) Hlt) in Hcan. discriminate.
Qed.

(** ** What the optimizer does to a list *)

Lemma StronglySorted_mono {A} (R R' : A -> A -> Prop) l :
  (forall x y, R x y -> R' x y) -> StronglySorted R l -> StronglySorted R' l.
Proof.
  intros Himp. induction 1 as [|a l Hs IH Hall]; constructor; [exact IH|].
  eapply Forall_impl; [|exact Hall]. exact (Himp a).
Qed.

Lemma optimize_timestamp_sorted l sd :
  StronglySorted clip_le l -> StronglySorted timestamp_le (optimize_clip_transitions l sd).
Proof.
  intros H.
  apply (StronglySorted_map_eq ClipInfo.file_timestamp (fun a b => String.leb a b = true) l).
  - symmetry. apply optimize_from_timestamps.
  - eapply StronglySorted_mono; [|exact H]. exact clip_le_timestamp_le.
Qed.

Lemma optimize_from_shift i sd l :
  Forall (fun c => 0 < ClipInfo.duration c) l ->
  (forall j, Forall (fun x => 0 <= x) (sd j)) ->
  Forall2 shifted_by_at_most_fifth l (optimize_from i sd l).
Proof.
  revert i; induction l as [|c l IH]; intros i Hl Hsd; cbn [optimize_from]; constructor.
  - inversion Hl; subst. apply optimize_clip_window; auto.
  - inversion Hl; subst. apply IH; auto.
Qed.

(** ** A run that never ends

    One file of [10] seconds, clips of [4] seconds, [8] seconds wanted. *)

Definition stuck_file : VideoFile := new_video_file "a.mp4" (Some 10) "20240101000000".

Lemma stuck_needed : num_clips_needed [stuck_file] 4 8 = 2%Z.
Proof. reflexivity. Qed.

(** After a first clip starting in [(1, 5)], [can_extract_clip] still holds
    by its last test: [10 - 4 >= 4 + 1]. *)
Lemma stuck_can s : can_extract_clip (add_used_range stuck_file s 4) 4 = true.
Proof.
  unfold can_extract_clip.
  change (duration (add_used_range stuck_file s 4)) with 10.
  change (sorted_ranges (add_used_range stuck_file s 4)) with [(s, s + 4)].
  change (min_gap (add_used_range stuck_file s 4)) with 1.
  change (get_available_duration (add_used_range stuck_file s 4))
    with (10 - (s + 4 - s + 0) - 0).
  rewrite (Qlt_bool_false_intro 10 4) by lra. cbv beta iota zeta.
  destruct (Qle_bool 4 s); [reflexivity|].
  change (some_inner_gap (4 + 1 * 2) [(s, s + 4)]) with false.
  cbn [last snd].
  destruct (Qle_bool (4 + 1) (10 - (s + 4))); [reflexivity|].
  apply Qle_bool_true. lra.
Qed.

(** ... but no candidate range is left. *)
Lemma stuck_no_range s :
  1 < s -> s < 5 -> available_ranges (add_used_range stuck_file s 4) 4 = [].
Proof.
  intros H1 H2. unfold available_ranges.
  change (sorted_ranges (add_used_range stuck_file s 4)) with [(s, s + 4)].
  change (min_gap (add_used_range stuck_file s 4)) with 1.
  change (duration (add_used_range stuck_file s 4)) with 10.
  unfold range_before, range_after. cbn [ranges_between last fst snd app].
  rewrite (Qle_bool_false_intro (4 + 1) s) by lra.
  rewrite (Qle_bool_false_intro 4 (10 - (s + 4 + 1))) by lra.
  reflexivity.
Qed.

Lemma stuck_find s k u :
  1 < s -> s < 5 -> find_available_position (add_used_range stuck_file s 4) 4 k u = None.
Proof.
  intros H1 H2. unfold find_available_position.
  change (used_ranges (add_used_range stuck_file s 4)) with [(s, s + 4)].
  cbv beta iota. rewrite stuck_no_range by assumption.
  unfold choice. destruct (Nat.modulo k _); reflexivity.
Qed.

Lemma choice_single {A} k (x : A) : choice k [x] = Some x.
Proof. unfold choice. cbn [List.length]. rewrite Nat.mod_1_r. reflexivity. Qed.

Lemma stuck_available s :
  available_files [add_used_range stuck_file s 4] 4 = [(0%nat, add_used_range stuck_file s 4)].
Proof.
  unfold available_files. cbn [List.length seq combine filter snd].
  rewrite stuck_can. reflexivity.
Qed.

Lemma plain_stuck s sel d :
  1 < s -> s < 5 -> List.length sel = 1%nat ->
  plain_iter 2 4 (mkPlainState [add_used_range stuck_file s 4] sel) d
  = Next (mkPlainState [add_used_range stuck_file s 4] sel).
Proof.
  intros H1 H2 Hl. unfold plain_iter. cbn [ps_selected ps_files]. rewrite Hl.
  change (Z.ltb (Z.of_nat 1) 2) with true. rewrite stuck_available. cbv beta iota.
  change (top_half [(0%nat, add_used_range stuck_file s 4)])
    with [(0%nat, add_used_range stuck_file s 4)].
  rewrite choice_single. cbv beta iota. rewrite stuck_find by assumption. reflexivity.
Qed.

Lemma plain_first_step d :
  exists sel, List.length sel = 1%nat /\
    plain_iter 2 4 (mkPlainState [stuck_file] []) d
    = Next (mkPlainState [add_used_range stuck_file (uniform 0 (10 - 4) (pick_u d)) 4] sel).
Proof.
  unfold plain_iter. cbn [ps_selected ps_files].
  change (available_files [stuck_file] 4) with [(0%nat, stuck_file)].
  change (Z.ltb (Z.of_nat (List.length (@nil ClipInfo.t))) 2) with true. cbv beta iota.
  change (top_half [(0%nat, stuck_file)]) with [(0%nat, stuck_file)].
  rewrite choice_single. cbv beta iota.
  rewrite (find_fresh stuck_file 4 (pick_range d) (pick_u d) eq_refl).
  eexists. split; [|reflexivity]. reflexivity.
Qed.

Lemma plain_loop_stuck fuel rng n s sel :
  1 < s -> s < 5 -> List.length sel = 1%nat ->
  plain_loop fuel 2 4 rng n (mkPlainState [add_used_range stuck_file s 4] sel) = None.
Proof.
  intros H1 H2 Hl. revert n; induction fuel as [|fuel IH]; intros n; [reflexivity|].
  cbn [plain_loop]. rewrite plain_stuck by assumption. apply IH.
Qed.

Lemma eval_files_none dw sel L d av :
  (forall i vf kr u, In (i, vf) av -> find_available_position vf L kr u = None) ->
  eval_files dw sel L d av = None.
Proof.
  intros Hnone. unfold eval_files.
  apply (fold_left_ind (fun b => b = None)); [reflexivity|].
  intros b [pos [i vf]] Hin ->. apply in_combine_r in Hin.
  apply (fold_left_ind (fun b => b = None)); [reflexivity|].
  intros b t _ ->. unfold eval_try.
  destruct (try_draw d pos t) as [[kr u] f]. rewrite (Hnone i vf kr u Hin). reflexivity.
Qed.

Lemma eval_files_start (P : nat -> VideoFile -> Q -> Prop) dw sel L d av b :
  (forall pos t i vf kr u f s, In (i, vf) av -> try_draw d pos t = (kr, u, f) ->
     find_available_position vf L kr u = Some s -> P i vf s) ->
  eval_files dw sel L d av = Some b -> P (best_index b) (best_file b) (best_start b).
Proof.
  intros HP. unfold eval_files. revert b.
  apply (fold_left_ind (fun best => forall b, best = Some b ->
                          P (best_index b) (best_file b) (best_start b)));
    [intros b H; discriminate|].
  intros best [pos [i vf]] Hin Hbest. apply in_combine_r in Hin.
  apply fold_left_ind; [exact Hbest|].
  intros bb t _ Hb. unfold eval_try.
  destruct (try_draw d pos t) as [[kr u] f] eqn:Ht.
  destruct (find_available_position vf L kr u) as [s|] eqn:Hf; [|exact Hb].
  assert (Hnew : forall b', Some (mkBest i vf s f (final_score dw sel f)) = Some b' ->
                   P (best_index b') (best_file b') (best_start b')).
  { intros b' H. injection H as <-. simpl. eapply HP; eassumption. }
  destruct bb as [b0|]; [|exact Hnew].
  destruct (Qlt_bool (best_score b0) (final_score dw sel f)); [exact Hnew|exact Hb].
Qed.

Lemma smart_stuck dw s st d :
  1 < s -> s < 5 -> ss_files st = [add_used_range stuck_file s 4] ->
  List.length (ss_selected st) = 1%nat ->
  smart_iter dw 2 4 st d = Next st.
Proof.
  intros H1 H2 Hf Hl. unfold smart_iter. rewrite Hl, Hf.
  change (Z.ltb (Z.of_nat 1) 2) with true. rewrite stuck_available. cbv beta iota.
  rewrite eval_files_none.
  - change (top_half [(0%nat, add_used_range stuck_file s 4)])
      with [(0%nat, add_used_range stuck_file s 4)].
    rewrite choice_single. cbv beta iota. rewrite stuck_find by assumption. reflexivity.
  - intros i vf kr u [H|[]]. injection H as <- <-. apply stuck_find; assumption.
Qed.

Lemma smart_first_step dw d :
  (forall pos t, 1 # 6 < snd (fst (try_draw d pos t)) /\ snd (fst (try_draw d pos t)) < 5 # 6) ->
  1 # 6 < fb_u d -> fb_u d < 5 # 6 ->
  exists s st', 1 < s /\ s < 5 /\
    smart_iter dw 2 4 (mkSmartState [stuck_file] [] []) d = Next st' /\
    ss_files st' = [add_used_range stuck_file s 4] /\ List.length (ss_selected st') = 1%nat.
Proof.
  intros Htry Hfb1 Hfb2. unfold smart_iter. cbn [ss_selected ss_files ss_features].
  change (available_files [stuck_file] 4) with [(0%nat, stuck_file)].
  change (Z.ltb (Z.of_nat (List.length (@nil ClipInfo.t))) 2) with true. cbv beta iota.
  destruct (eval_files dw [] 4 d [(0%nat, stuck_file)]) as [b|] eqn:He.
  - pose proof (eval_files_start
      (fun i vf s => i = 0%nat /\ vf = stuck_file /\ 1 < s /\ s < 5) dw [] 4 d [(0%nat, stuck_file)] b) as Hb.
    destruct Hb as (Hi & Hvf & Hs1 & Hs2); [|exact He|].
    + intros pos t i vf kr u f s [H|[]] Ht Hfind. injection H as <- <-.
      rewrite (find_fresh stuck_file 4 kr u eq_refl) in Hfind. injection Hfind as <-.
      specialize (Htry pos t). rewrite Ht in Htry. cbn [fst snd] in Htry.
      unfold uniform. change (duration stuck_file) with 10. repeat split; lra.
    + exists (best_start b). eexists. split; [exact Hs1|]. split; [exact Hs2|].
      split; [reflexivity|]. unfold smart_commit. rewrite Hi, Hvf. split; reflexivity.
  - change (top_half [(0%nat, stuck_file)]) with [(0%nat, stuck_file)].
    rewrite choice_single. cbv beta iota.
    rewrite (find_fresh stuck_file 4 (fb_pick_range d) (fb_u d) eq_refl).
    exists (uniform 0 (duration stuck_file - 4) (fb_u d)). eexists.
    unfold uniform. change (duration stuck_file) with 10.
    split; [lra|]. split; [lra|]. split; [reflexivity|]. split; reflexivity.
Qed.

Lemma smart_loop_stuck fuel dw rng n s st :
  1 < s -> s < 5 -> ss_files st = [add_used_range stuck_file s 4] ->
  List.length (ss_selected st) = 1%nat ->
  smart_loop fuel dw 2 4 rng n st = None.
Proof.
  intros H1 H2 Hf Hl. revert n; induction fuel as [|fuel IH]; intros n; [reflexivity|].
  cbn [smart_loop]. rewrite (smart_stuck dw s st (rng n)) by assumption. apply IH.
Qed.

Lemma nth_error_optimize_from j sd l i :
  nth_error (optimize_from j sd l) i =
  match nth_error l i with Some c => Some (optimize_clip c (sd (j + i)%nat)) | None => None end.
Proof.
  revert j i; induction l as [|c l IH]; intros j [|i]; cbn [optimize_from nth_error];
    try reflexivity.
  - rewrite Nat.add_0_r. reflexivity.
  - rewrite IH. replace (S j + i)%nat with (j + S i)%nat by lia. reflexivity.
Qed.

(** ** Concrete inputs *)

Definition file10 : VideoFile := new_video_file "b.mp4" (Some 10) "20240101000000".

(** [file10] after one clip of [4] seconds starting at [3]. *)
Definition sample_file : VideoFile := add_used_range file10 (uniform 0 (10 - 4) (1 # 2)) 4.

Definition file5 : VideoFile := new_video_file "c.mp4" (Some 5) "20240101000000".

Definition file_a : VideoFile := new_video_file "a.mp4" (Some 20) "20240101000000".
Definition file_b : VideoFile := new_video_file "b.mp4" (Some 20) "20240101000000".

Definition const_draw (u : Q) : nat -> PlainDraw := fun _ => mkPlainDraw 0 0 u.

Definition const_smart_draw (u : Q) : nat -> SmartDraw :=
  fun _ => mkSmartDraw (fun _ _ => (0%nat, u, zero_features)) 0 0 u zero_features.

(** Starts [5] and then [5.5] for two clips of [5] seconds. *)
Definition two_starts : nat -> PlainDraw :=
  fun n => match n with O => mkPlainDraw 0 0 (1 # 3) | _ => mkPlainDraw 0 0 (11 # 30) end.

Definition two_scenes : nat -> list Q := fun i => match i with O => [1] | _ => [4] end.

Definition clip10 : ClipInfo.t := ClipInfo.mk "b.mp4" 0 10 "20240101000000" 0 0 0.

Lemma file10_reachable : reachable file10.
Proof. unfold file10. apply reachable_new. apply Qle_bool_iff. reflexivity. Qed.

Lemma sample_reachable : reachable sample_file.
Proof.
  unfold sample_file. apply (reachable_commit file10 4 0 (1 # 2)); try lra.
  - exact file10_reachable.
  - reflexivity.
  - reflexivity.
Qed.

Lemma const_draw_valid u : 0 <= u -> u < 1 -> forall m, valid_u (pick_u (const_draw u m)).
Proof. intros H0 H1 m. split; assumption. Qed.

Lemma const_smart_draw_valid u : 0 <= u -> u < 1 -> forall m, smart_draw_ok (const_smart_draw u m).
Proof. intros H0 H1 m. split; [intros pos t|]; split; assumption. Qed.

(** ** [get_video_duration] *)

(** A JSON value handed to [float()]: one it converts, or one it rejects
    with [ValueError] (such as ["N/A"]). *)
Inductive JsonNum := FloatStr (q : Q) | BadFloatStr.

(** An entry of [probe['streams']]; [None] is a missing key. *)
Record ProbeStream := mkProbeStream {
  codec_type : option string;
  stream_duration : option JsonNum
}.

(** The dict returned by [ffmpeg.probe]: [format_duration] is [None]
    without a ['format'] key and [Some None] when [probe['format']] has no
    ['duration']; [streams] is [None] without a ['streams'] key. *)
Record Probe := mkProbe {
  format_duration : option (option JsonNum);
  streams : option (list ProbeStream)
}.

(** [float(v)] *)
Definition py_float (v : JsonNum) : PyResult Q :=
  match v with FloatStr q => PyOk q | BadFloatStr => PyRaise OtherException end.

(** [for stream in probe['streams']]: the first stream with
    [stream['codec_type'] == 'video'] and a ['duration']; a stream without
    ['codec_type'] raises [KeyError]. *)
Fixpoint scan_streams (l : list ProbeStream) : PyResult (option Q) :=
  match l with
  | [] => PyOk None
  | s :: t =>
      match codec_type s with
      | None => PyRaise OtherException
      | Some ct =>
          if String.eqb ct "video" then
            match stream_duration s with
            | Some v => match py_float v with PyOk q => PyOk (Some q) | PyRaise e => PyRaise e end
            | None => scan_streams t
            end
          else scan_streams t
      end
  end.

(** The body of the [try] of [get_video_duration], after the probe. *)
Definition get_video_duration_body (pr : Probe) : PyResult (option Q) :=
  match format_duration pr with
  | Some (Some v) => match py_float v with PyOk q => PyOk (Some q) | PyRaise e => PyRaise e end
  | _ =>
      match streams pr with
      | None => PyRaise OtherException
      | Some l => scan_streams l
      end
  end.

(** [get_video_duration]; [probe] is what [ffmpeg.probe] returns or
    raises.  [except Exception] turns every exception into [None]. *)
Definition get_video_duration (probe : PyResult Probe) : option Q :=
  match probe with
  | PyRaise _ => None
  | PyOk pr =>
      match get_video_duration_body pr with
      | PyOk r => r
      | PyRaise _ => None
      end
  end.

(** ** [VideoFile._extract_timestamp] *)

(** [s.split(sep)] *)
Fixpoint py_split (sep : ascii) (s : string) : list string :=
  match s with
  | EmptyString => [EmptyString]
  | String c t =>
      if Ascii.eqb c sep then EmptyString :: py_split sep t
      else match py_split sep t with
           | w :: ws => String c w :: ws
           | [] => [String c EmptyString]
           end
  end.

(** How [self.path.stat().st_mtime] and
    [datetime.fromtimestamp(mtime).strftime('%Y%m%d%H%M%S')] turn out: the
    formatted time, an [OSError] or [ValueError] (caught), or another
    exception such as [OverflowError] (not caught). *)
Inductive MtimeOutcome := MtimeOk (formatted : string) | MtimeCaught | MtimeUncaught.

(** [_extract_timestamp] of a path whose [stem] is [stem]; [now] is
    [datetime.now().strftime('%Y%m%d%H%M%S')].  An [IndexError] of
    [split('_')[1]] also falls back to [now]. *)
Definition extract_timestamp (stem : string) (mtime : MtimeOutcome) (now : string)
    : PyResult string :=
  if String.prefix "DJI_" stem then
    match nth_error (py_split "_"%char stem) 1 with
    | Some ts => PyOk ts
    | None => PyOk now
    end
  else
    match mtime with
    | MtimeOk ts => PyOk ts
    | MtimeCaught => PyOk now
    | MtimeUncaught => PyRaise OtherException
    end.

(** ** The sampling pass of [select_clips_smart] *)

(** [start_time] of the [i]-th of [samples] samples of a file of
    duration [D]. *)
Definition sample_start (D L : Q) (samples i : nat) : Q :=
  if Qle_bool D L then 0
  else
    let max_start := D - L in
    if Nat.ltb 1 samples
    then (max_start / inject_Z (Z.of_nat (samples - 1))) * inject_Z (Z.of_nat i)
    else 0.

(** The environment and the three [random.random()] values of one call of
    [analyze_video_segment]. *)
Record SampleDraw := mkSampleDraw { s_env : AnalysisEnv; s_u1 : Q; s_u2 : Q; s_u3 : Q }.

(** [for i in range(samples)] with [samples = 3]: the features of the
    [i]-th sample come from [draw i]. *)
Definition analyze_samples (vf : VideoFile) (L : Q) (draw : nat -> SampleDraw)
    : PyResult (list Features) :=
  let samples := 3%nat in
  fold_left
    (fun acc i =>
       match acc with
       | PyRaise e => PyRaise e
       | PyOk sample_features =>
           let d := draw i in
           match analyze_video_segment (s_env d) (path vf)
                   (sample_start (duration vf) L samples i) L (s_u1 d) (s_u2 d) (s_u3 d) with
           | PyOk f => PyOk (sample_features ++ [f])
           | PyRaise e => PyRaise e
           end
       end)
    (seq 0 samples) (PyOk []).

(** [avg_features]: the [np.mean] of each score. *)
Definition avg_features (fs : list Features) : Features :=
  mkFeatures (mean (map scene_score fs)) (mean (map motion_score fs))
    (mean (map color_variance fs)).

(** [d[k] = v] on a dict kept as its items in insertion order. *)
Fixpoint dict_set {V} (k : string) (v : V) (d : list (string * V)) : list (string * V) :=
  match d with
  | [] => [(k, v)]
  | (k', v') :: t => if String.eqb k k' then (k, v) :: t else (k', v') :: dict_set k v t
  end.

(** The files of [file_potentials]. *)
Definition file_potentials (video_files : list VideoFile) (L : Q) : list VideoFile :=
  filter (fun vf => Qle_bool L (duration vf)) video_files.

(** One turn of the loop [for video_file, _ in file_potentials] filling
    [file_features]; the samples of the [p]-th file come from [draws p]. *)
Definition sampling_step (L : Q) (draws : nat -> nat -> SampleDraw)
    (acc : PyResult (list (string * Features))) (p : nat * VideoFile)
    : PyResult (list (string * Features)) :=
  match acc with
  | PyRaise e => PyRaise e
  | PyOk file_features =>
      match analyze_samples (snd p) L (draws (fst p)) with
      | PyOk sample_features =>
          PyOk (dict_set (path (snd p)) (avg_features sample_features) file_features)
      | PyRaise e => PyRaise e
      end
  end.

(** The sampling pass: [file_features] starts empty. *)
Definition sampling_pass (video_files : list VideoFile) (L : Q) (draws : nat -> nat -> SampleDraw)
    : PyResult (list (string * Features)) :=
  fold_left (sampling_step L draws)
    (combine (seq 0 (List.length (file_potentials video_files L))) (file_potentials video_files L))
    (PyOk []).

(** [random.uniform(0, duration)] for each [random.random()] value of
    [us]: the draws of [detect_scene_changes]. *)
Definition scene_draws_of (duration : Q) (us : list Q) : list Q := map (uniform 0 duration) us.

(** ** [create_timeline_from_clips] *)

(** What the DaVinci Resolve scripting calls return: whether each object
    fetched before the import is truthy, whether
    [ImportMedia([clip_info.file])] returns a list with a truthy first item
    for the clip at position [i] of [clips], whether [CreateEmptyTimeline]
    succeeds, and [float(GetClipProperty("FPS"))] of the media item of the
    clip at position [i] ([None]: [ValueError]).  The calls are taken to
    return rather than raise. *)
Record ResolveApi := mkResolveApi {
  project_manager_ok : bool;
  current_project_ok : bool;
  media_pool_ok : bool;
  root_folder_ok : bool;
  bin_ok : bool;
  import_ok : nat -> bool;
  timeline_ok : bool;
  fps_property : nat -> option Q
}.

(** [int(x)]: truncation toward zero. *)
Definition py_int (q : Q) : Z := if Qle_bool 0 q then Qfloor q else Z.opp (Qfloor (- q)).

(** An entry of [added_clips]; the media item is named by the position of
    its clip in [clips]. *)
Record AddedClip := mkAddedClip {
  ac_item : nat;
  ac_start : Q;
  ac_duration : Q;
  ac_timestamp : string
}.

(** The arguments of one [mediaPool.AppendToTimeline] call. *)
Record TimelineItem := mkTimelineItem { item_clip : nat; start_frame : Z; end_frame : Z }.

(** The first loop, from position [i] of [clips] on. *)
Fixpoint import_clips (api : ResolveApi) (i : nat) (clips : list ClipInfo.t) : list AddedClip :=
  match clips with
  | [] => []
  | clip_info :: rest =>
      (if import_ok api i
       then [mkAddedClip i (ClipInfo.start clip_info) (ClipInfo.duration clip_info)
               (ClipInfo.file_timestamp clip_info)]
       else [])
      ++ import_clips api (S i) rest
  end.

(** The second loop; the items appended before a [ValueError] of
    [float()] stay on the timeline. *)
Fixpoint append_clips (api : ResolveApi) (added : list AddedClip)
    : PyResult unit * list TimelineItem :=
  match added with
  | [] => (PyOk tt, [])
  | clip_info :: rest =>
      match fps_property api (ac_item clip_info) with
      | None => (PyRaise OtherException, [])
      | Some clip_fps =>
          let start_frame := py_int (ac_start clip_info * clip_fps) in
          let end_frame := py_int ((ac_start clip_info + ac_duration clip_info) * clip_fps) in
          let '(r, items) := append_clips api rest in
          (r, mkTimelineItem (ac_item clip_info) start_frame end_frame :: items)
      end
  end.

(** What a call did: its return value or exception, the clips added to
    the media pool, and the [AppendToTimeline] calls. *)
Record TimelineRun := mkTimelineRun {
  run_result : PyResult bool;
  imported : list nat;
  appended : list TimelineItem
}.

(** [create_timeline_from_clips] *)
Definition create_timeline_from_clips (api : ResolveApi) (clips : list ClipInfo.t) : TimelineRun :=
  if negb (project_manager_ok api) then mkTimelineRun (PyOk false) [] [] else
  if negb (current_project_ok api) then mkTimelineRun (PyOk false) [] [] else
  if negb (media_pool_ok api) then mkTimelineRun (PyOk false) [] [] else
  if negb (root_folder_ok api) then mkTimelineRun (PyOk false) [] [] else
  if negb (bin_ok api) then mkTimelineRun (PyOk false) [] [] else
  let added_clips := import_clips api 0 clips in
  if negb (timeline_ok api) then mkTimelineRun (PyOk false) (map ac_item added_clips) [] else
  let '(r, items) := append_clips api added_clips in
  mkTimelineRun (match r with PyOk _ => PyOk true | PyRaise e => PyRaise e end)
    (map ac_item added_clips) items.

(** ** Facts about [get_video_duration], [_extract_timestamp] and the
    sampling pass *)

(** A stream the loop of [get_video_duration] walks past: it has a
    ['codec_type'] and is not a video stream with a ['duration']. *)
Definition skipped_stream (s : ProbeStream) : bool :=
  match codec_type s with
  | None => false
  | Some ct =>
      negb (String.eqb ct "video" &&
            match stream_duration s with Some _ => true | None => false end)
  end.

Lemma scan_streams_skip pre l :
  forallb skipped_stream pre = true -> scan_streams (pre ++ l) = scan_streams l.
Proof.
  induction pre as [|s t IH]; simpl; [reflexivity|].
  intros H. apply andb_prop in H as [Hs Ht].
  unfold skipped_stream in Hs.
  destruct (codec_type s) as [ct|]; [|discriminate].
  destruct (String.eqb ct "video"); simpl in Hs.
  - destruct (stream_duration s); [discriminate|]. apply IH, Ht.
  - apply IH, Ht.
Qed.

Lemma scan_streams_all_skipped l :
  forallb skipped_stream l = true -> scan_streams l = PyOk None.
Proof. intros H. rewrite <- (app_nil_r l). rewrite scan_streams_skip by exact H. reflexivity. Qed.

(** A string without ['_']. *)
Definition no_underscore (s : string) : bool :=
  forallb (fun c => negb (Ascii.eqb c "_"%char)) (list_ascii_of_string s).

Lemma py_split_field ts rest :
  no_underscore ts = true -> (rest = EmptyString \/ exists r, rest = String "_"%char r) ->
  exists ws, py_split "_"%char (String.append ts rest) = ts :: ws.
Proof.
  intros Hts Hrest. induction ts as [|c t IH]; simpl.
  - destruct Hrest as [->|[r ->]]; eexists; reflexivity.
  - simpl in Hts. apply andb_prop in Hts as [Hc Ht].
    destruct (IH Ht) as [ws Hws]. rewrite Hws.
    apply Bool.negb_true_iff in Hc. rewrite Hc. eexists; reflexivity.
Qed.

Lemma sample_start_3 D L i :
  L <= D -> sample_start D L 3 i == (D - L) / 2 * inject_Z (Z.of_nat i).
Proof.
  intros HLD. unfold sample_start.
  destruct (Qle_bool D L) eqn:E.
  - apply Qle_bool_iff in E. assert (H0 : D - L == 0) by lra. rewrite H0. field.
  - cbv zeta. change (Nat.ltb 1 3) with true. cbv iota.
    change (inject_Z (Z.of_nat (3 - 1))) with 2. reflexivity.
Qed.

(** Scores in [[lo, hi]]. *)
Definition scores_within (lo hi : Q) (f : Features) : Prop :=
  lo <= scene_score f <= hi /\ lo <= motion_score f <= hi /\ lo <= color_variance f <= hi.

Lemma analyze_scores env fp st d u1 u2 u3 :
  valid_u u1 -> valid_u u2 -> valid_u u3 ->
  exists f, analyze_video_segment env fp st d u1 u2 u3 = PyOk f /\ scores_within 0 (9 # 10) f.
Proof.
  intros [H1 H1'] [H2 H2'] [H3 H3'].
  assert (Hr : scores_within 0 (9 # 10) (random_features u1 u2 u3)).
  { unfold scores_within, random_features, uniform. cbn [scene_score motion_score color_variance].
    repeat split; lra. }
  assert (Hz : scores_within 0 (9 # 10) zero_features).
  { unfold scores_within. cbn [scene_score motion_score color_variance zero_features].
    repeat split; lra. }
  destruct env as [[] [[|]|] [] []];
    first [exists (random_features u1 u2 u3); split; [reflexivity|exact Hr]
          |exists zero_features; split; [reflexivity|exact Hz]].
Qed.

Lemma sum_bounds lo hi l :
  Forall (fun x => lo <= x <= hi) l ->
  inject_Z (Z.of_nat (List.length l)) * lo <= fold_right Qplus 0 l /\
  fold_right Qplus 0 l <= inject_Z (Z.of_nat (List.length l)) * hi.
Proof.
  induction 1 as [|x l [Hx1 Hx2] _ [IH1 IH2]]; cbn [fold_right List.length].
  - change (inject_Z (Z.of_nat 0)) with 0. split; lra.
  - rewrite inject_Z_of_nat_succ. split; nra.
Qed.

Lemma mean_bounds lo hi l :
  l <> [] -> Forall (fun x => lo <= x <= hi) l -> lo <= mean l <= hi.
Proof.
  intros Hne Hall. destruct (sum_bounds lo hi l Hall) as [H1 H2]. unfold mean.
  assert (Hn : 0 < inject_Z (Z.of_nat (List.length l))).
  { destruct l as [|x t]; [congruence|]. cbn [List.length]. rewrite inject_Z_of_nat_succ.
    pose proof (inject_Z_of_nat_nonneg (List.length t)). lra. }
  split.
  - apply Qle_shift_div_l; [exact Hn|]. rewrite Qmult_comm. exact H1.
  - apply Qle_shift_div_r; [exact Hn|]. rewrite Qmult_comm. exact H2.
Qed.

Lemma avg_features_within lo hi fs :
  fs <> [] -> Forall (scores_within lo hi) fs -> scores_within lo hi (avg_features fs).
Proof.
  intros Hne Hall.
  assert (Hm : forall (g : Features -> Q), (forall f, scores_within lo hi f -> lo <= g f <= hi) ->
             lo <= mean (map g fs) <= hi).
  { intros g Hg. apply mean_bounds.
    - destruct fs; [congruence|discriminate].
    - apply Forall_map. eapply Forall_impl; [|exact Hall]. exact Hg. }
  unfold avg_features, scores_within. cbn [scene_score motion_score color_variance].
  split; [|split]; apply Hm; intros f (? & ? & ?); assumption.
Qed.

Lemma analyze_samples_ok vf L draw :
  (forall i, valid_u (s_u1 (draw i))) -> (forall i, valid_u (s_u2 (draw i))) ->
  (forall i, valid_u (s_u3 (draw i))) ->
  exists fs, analyze_samples vf L draw = PyOk fs /\ fs <> [] /\
    Forall (scores_within 0 (9 # 10)) fs.
Proof.
  intros Hu1 Hu2 Hu3. unfold analyze_samples. cbn [seq fold_left].
  repeat match goal with
  | |- context [analyze_video_segment ?e ?p ?s ?d ?x ?y ?z] =>
      let f := fresh "f" in let Ef := fresh "E" in let Hf := fresh "H" in
      destruct (analyze_scores e p s d x y z (Hu1 _) (Hu2 _) (Hu3 _)) as (f & Ef & Hf);
      rewrite Ef; cbv beta iota
  end.
  eexists. split; [reflexivity|]. cbn [app]. split; [discriminate|].
  repeat (apply Forall_cons; [assumption|]). apply Forall_nil.
Qed.

Lemma dict_set_keys {V} k (v : V) d k' :
  In k' (map fst (dict_set k v d)) <-> k' = k \/ In k' (map fst d).
Proof.
  induction d as [|[k0 v0] t IH]; cbn [dict_set map fst In].
  - intuition congruence.
  - destruct (String.eqb_spec k k0) as [->|Hne]; cbn [map fst In]; [intuition congruence|].
    rewrite IH. intuition congruence.
Qed.

Lemma dict_set_in {V} k (v : V) d k' v' :
  In (k', v') (dict_set k v d) -> (k' = k /\ v' = v) \/ In (k', v') d.
Proof.
  induction d as [|[k0 v0] t IH]; cbn [dict_set In].
  - intros [H|[]]. injection H as <- <-. auto.
  - destruct (String.eqb k k0); cbn [In]; intros [H|H].
    + injection H as <- <-. auto.
    + auto.
    + right. left. exact H.
    + apply IH in H as [H|H]; auto.
Qed.

Lemma sampling_fold L draws l d :
  (forall p, In p l -> exists fs, analyze_samples (snd p) L (draws (fst p)) = PyOk fs /\
                           scores_within 0 (9 # 10) (avg_features fs)) ->
  exists d', fold_left (sampling_step L draws) l (PyOk d) = PyOk d' /\
    (forall k, In k (map fst d') <-> In k (map fst d) \/ exists p, In p l /\ path (snd p) = k) /\
    (forall k f, In (k, f) d' -> In (k, f) d \/ scores_within 0 (9 # 10) f).
Proof.
  revert d; induction l as [|p l IH]; intros d Hl; cbn [fold_left].
  - exists d. split; [reflexivity|]. split; [|auto].
    intros k. split; [auto|]. intros [H|(p & [] & _)]. exact H.
  - destruct (Hl p (or_introl eq_refl)) as (fs & Efs & Hfs).
    assert (Hstep : sampling_step L draws (PyOk d) p =
                    PyOk (dict_set (path (snd p)) (avg_features fs) d))
      by (unfold sampling_step; rewrite Efs; reflexivity).
    rewrite Hstep.
    destruct (IH (dict_set (path (snd p)) (avg_features fs) d)) as (d' & E' & Hk & Hv).
    { intros q Hq. apply Hl. right. exact Hq. }
    exists d'. split; [exact E'|]. split.
    + intros k. rewrite Hk, dict_set_keys. split.
      * intros [[->|H]|(q & Hq & Hqk)].
        -- right. exists p. split; [left|]; reflexivity.
        -- left. exact H.
        -- right. exists q. split; [right; exact Hq|exact Hqk].
      * intros [H|(q & [<-|Hq] & Hqk)].
        -- left. right. exact H.
        -- left. left. symmetry. exact Hqk.
        -- right. exists q. split; [exact Hq|exact Hqk].
    + intros k f H. apply Hv in H as [H|H]; [|auto].
      apply dict_set_in in H as [[_ ->]|H]; auto.
Qed.

Lemma In_combine_seq_intro {A} (l : list A) start x :
  In x l -> exists i, In (i, x) (combine (seq start (List.length l)) l).
Proof.
  revert start; induction l as [|y t IH]; intros start H; [destruct H|].
  destruct H as [->|H].
  - exists start. left. reflexivity.
  - destruct (IH (S start) H) as [i Hi]. exists i. right. exact Hi.
Qed.

Lemma detect_scene_changes_sorted draws : StronglySorted Qle (detect_scene_changes draws).
Proof.
  apply stable_sort_sorted.
  - intros x y H. apply Qlt_bool_iff in H. lra.
  - intros x y H. apply Qlt_bool_false in H. exact H.
  - intros x y z. apply Qle_trans.
Qed.

Lemma closest_to_strict m x rest :
  closest_to m x rest = x \/ Qabs (closest_to m x rest - m) < Qabs (x - m).
Proof.
  revert x; induction rest as [|y r IH]; intros x; [left; reflexivity|].
  change (closest_to m x (y :: r))
    with (closest_to m (if Qlt_bool (Qabs (y - m)) (Qabs (x - m)) then y else x) r).
  destruct (Qlt_bool (Qabs (y - m)) (Qabs (x - m))) eqn:E.
  - apply Qlt_bool_iff in E. right. destruct (IH y) as [-> | H]; [exact E|]. lra.
  - exact (IH x).
Qed.

(** Among the candidates as close to [m] as the chosen one, the chosen one
    comes first in a sorted list, so it is the smallest. *)
Lemma closest_to_first m x rest :
  Forall (Qle x) rest -> StronglySorted Qle rest ->
  forall y, In y (x :: rest) -> Qabs (y - m) == Qabs (closest_to m x rest - m) ->
  closest_to m x rest <= y.
Proof.
  revert x; induction rest as [|y0 r IH]; intros x Hx Hs y Hy Htie.
  - destruct Hy as [<-|[]]. apply Qle_refl.
  - inversion Hs as [|? ? Hr Hy0r]; subst.
    inversion Hx as [|? ? Hxy0 Hxr]; subst.
    change (closest_to m x (y0 :: r))
      with (closest_to m (if Qlt_bool (Qabs (y0 - m)) (Qabs (x - m)) then y0 else x) r) in *.
    destruct (Qlt_bool (Qabs (y0 - m)) (Qabs (x - m))) eqn:E.
    + apply Qlt_bool_iff in E.
      destruct Hy as [<-|Hy].
      * exfalso. destruct (closest_to_strict m y0 r) as [Hc|Hc].
        -- rewrite Hc in Htie. lra.
        -- lra.
      * exact (IH y0 Hy0r Hr y Hy Htie).
    + apply Qlt_bool_false in E.
      destruct Hy as [<-|[<-|Hy]].
      * exact (IH x Hxr Hr x (or_introl eq_refl) Htie).
      * destruct (closest_to_strict m x r) as [Hc|Hc].
        -- rewrite Hc. exact Hxy0.
        -- exfalso. lra.
      * exact (IH x Hxr Hr y (or_intror Hy) Htie).
Qed.

Lemma range_eqb_refl r : range_eqb r r = true.
Proof. unfold range_eqb. rewrite !Qeq_bool_refl. reflexivity. Qed.

Lemma some_inner_gap_mono need need' sr :
  need' <= need -> some_inner_gap need sr = true -> some_inner_gap need' sr = true.
Proof.
  intros Hn. induction sr as [|x sr IH]; [discriminate|].
  destruct sr as [|y t]; [discriminate|].
  change (some_inner_gap need (x :: y :: t))
    with (Qle_bool need (fst y - snd x) || some_inner_gap need (y :: t)).
  change (some_inner_gap need' (x :: y :: t))
    with (Qle_bool need' (fst y - snd x) || some_inner_gap need' (y :: t)).
  intros H. apply Bool.orb_true_iff in H as [H|H].
  - apply Qle_bool_iff in H. rewrite (Qle_bool_true need' _); [reflexivity|lra].
  - rewrite (IH H). apply Bool.orb_true_r.
Qed.

Lemma if_chain_mono (a b c d a' b' c' d' : bool) :
  (a = true -> a' = true) -> (b = true -> b' = true) -> (c = true -> c' = true) ->
  (d = true -> d' = true) ->
  (if a then true else if b then true else if c then true else d) = true ->
  (if a' then true else if b' then true else if c' then true else d') = true.
Proof. destruct a, b, c, d, a', b', c', d'; simpl; intuition congruence. Qed.

Lemma inject_Z_pred_succ k : inject_Z (Z.of_nat (S k) - 1) == inject_Z (Z.of_nat k).
Proof. rewrite Nat2Z.inj_succ, Z.sub_1_r, Z.pred_succ. reflexivity. Qed.

(** *** When a run stops *)

Lemma choice_some {A} k (l : list A) : l <> [] -> exists x, choice k l = Some x.
Proof.
  intros Hl. unfold choice.
  destruct (nth_error l (Nat.modulo k (List.length l))) as [x|] eqn:E; [eauto|].
  apply nth_error_None in E. destruct l as [|y t]; [congruence|].
  pose proof (Nat.mod_upper_bound k (List.length (y :: t))) as Hb.
  cbn [List.length] in *. lia.
Qed.

Lemma StronglySorted_app_rel {A} (R : A -> A -> Prop) l1 l2 x y :
  StronglySorted R (l1 ++ l2) -> In x l1 -> In y l2 -> R x y.
Proof.
  induction l1 as [|z t IH]; intros Hs Hx Hy; [destruct Hx|].
  cbn [app] in Hs. apply StronglySorted_inv in Hs as [Hs Hz].
  destruct Hx as [<-|Hx].
  - eapply Forall_forall; [exact Hz|]. apply in_or_app. right. exact Hy.
  - exact (IH Hs Hx Hy).
Qed.

(** The order [top_half] sorts by: longest available duration first. *)
Definition avail_ge (a b : nat * VideoFile) : Prop :=
  get_available_duration (snd b) <= get_available_duration (snd a).

Lemma top_half_sorted av :
  StronglySorted avail_ge
    (stable_sort (fun a b => Qlt_bool (get_available_duration (snd b))
                                      (get_available_duration (snd a))) av).
Proof.
  apply stable_sort_sorted; unfold avail_ge.
  - intros x y H. apply Qlt_bool_iff in H. apply Qlt_le_weak. exact H.
  - intros x y H. apply Qlt_bool_false in H. exact H.
  - intros x y z H1 H2. eapply Qle_trans; eassumption.
Qed.

Lemma top_half_nonempty av : av <> [] -> top_half av <> [].
Proof.
  intros Hav. unfold top_half. cbv zeta.
  set (sorted := stable_sort _ av).
  assert (Hp : Permutation av sorted) by apply stable_sort_perm.
  assert (Hm : (1 <= Nat.max 1 (Nat.div (List.length sorted) 2))%nat) by apply Nat.le_max_l.
  destruct sorted as [|x t].
  - apply Permutation_sym, Permutation_nil in Hp. congruence.
  - destruct (Nat.max 1 _) as [|m]; [lia|]. cbn [firstn]. discriminate.
Qed.

Lemma available_files_nil fs L :
  available_files fs L = [] -> Forall (fun vf => can_extract_clip vf L = false) fs.
Proof.
  intros H. apply Forall_forall. intros vf Hvf.
  destruct (can_extract_clip vf L) eqn:E; [|reflexivity]. exfalso.
  destruct (In_combine_seq_intro fs 0 vf Hvf) as [i Hi].
  assert (Hin : In (i, vf) (available_files fs L))
    by (unfold available_files; apply filter_In; split; [exact Hi|exact E]).
  rewrite H in Hin. destruct Hin.
Qed.

Lemma plain_iter_stop needed L st d :
  plain_iter needed L st d = Stop ->
  (needed <= Z.of_nat (List.length (ps_selected st)))%Z \/ available_files (ps_files st) L = [].
Proof.
  unfold plain_iter.
  destruct (Z.ltb_spec (Z.of_nat (List.length (ps_selected st))) needed) as [Hlt|Hge];
    [|intros _; left; exact Hge].
  destruct (available_files (ps_files st) L) as [|p l] eqn:Hav; [intros _; right; reflexivity|].
  destruct (choice_some (pick_file d) (top_half (p :: l))) as [[i vf] Hc];
    [apply top_half_nonempty; discriminate|].
  rewrite Hc. destruct (find_available_position vf L (pick_range d) (pick_u d));
    [destruct (commit_clip _ _ _ _ _ _)|]; discriminate.
Qed.

(** *** [eval_files] as one fold over all tries *)

(** The candidate of one try [(pos, (i, vf), t)], if its start is found. *)
Definition try_candidate (dw : Q) (sel : list Features) (L : Q) (d : SmartDraw)
    (x : nat * (nat * VideoFile) * nat) : option Best :=
  let '(pos, (i, vf), t) := x in
  let '(kr, u, f) := try_draw d pos t in
  match find_available_position vf L kr u with
  | None => None
  | Some s => Some (mkBest i vf s f (final_score dw sel f))
  end.

(** [if score > best_score: ...] *)
Definition keep_best (best c : option Best) : option Best :=
  match c with
  | None => best
  | Some cb =>
      match best with
      | Some b => if Qlt_bool (best_score b) (best_score cb) then c else best
      | None => c
      end
  end.

Definition all_tries (av : list (nat * VideoFile)) : list (nat * (nat * VideoFile) * nat) :=
  flat_map (fun pc => map (fun t => (fst pc, snd pc, t)) (seq 0 5))
    (combine (seq 0 (List.length av)) av).

Lemma eval_try_keep_best dw sel L d pos i vf best t :
  eval_try dw sel L d pos i vf best t = keep_best best (try_candidate dw sel L d (pos, (i, vf), t)).
Proof.
  unfold eval_try, try_candidate. destruct (try_draw d pos t) as [[kr u] f].
  destruct (find_available_position vf L kr u); [|reflexivity].
  destruct best; reflexivity.
Qed.

Lemma eval_files_flat dw sel L d av :
  eval_files dw sel L d av =
  fold_left keep_best (map (try_candidate dw sel L d) (all_tries av)) None.
Proof.
  unfold eval_files, all_tries. generalize (@None Best) as b.
  induction (combine (seq 0 (List.length av)) av) as [|[pos [i vf]] l IH]; intros b;
    [reflexivity|].
  cbn [flat_map fold_left]. rewrite map_app, fold_left_app, IH. f_equal.
  rewrite map_map. cbn [fst snd]. generalize (seq 0 5) as ts. intros ts.
  revert b; induction ts as [|t ts IHt]; intros b; [reflexivity|].
  cbn [fold_left map]. rewrite eval_try_keep_best. apply IHt.
Qed.

Lemma keep_best_cases b c : keep_best b c = b \/ keep_best b c = c.
Proof.
  destruct c as [cb|]; [|left; reflexivity]. destruct b as [b|]; [|right; reflexivity].
  cbn [keep_best]. destruct (Qlt_bool _ _); auto.
Qed.

Lemma keep_best_ge_old b c : exists k, keep_best (Some b) c = Some k /\ best_score b <= best_score k.
Proof.
  destruct c as [cb|]; cbn [keep_best].
  - destruct (Qlt_bool (best_score b) (best_score cb)) eqn:E.
    + apply Qlt_bool_iff in E. exists cb. split; [reflexivity|]. apply Qlt_le_weak, E.
    + exists b. split; [reflexivity|apply Qle_refl].
  - exists b. split; [reflexivity|apply Qle_refl].
Qed.

Lemma keep_best_ge_new b c : exists k, keep_best b (Some c) = Some k /\ best_score c <= best_score k.
Proof.
  destruct b as [b|]; cbn [keep_best].
  - destruct (Qlt_bool (best_score b) (best_score c)) eqn:E.
    + exists c. split; [reflexivity|apply Qle_refl].
    + apply Qlt_bool_false in E. exists b. split; [reflexivity|exact E].
  - exists c. split; [reflexivity|apply Qle_refl].
Qed.

Lemma keep_best_fold cs b0 :
  match fold_left keep_best cs b0 with
  | None => b0 = None /\ Forall (fun c => c = None) cs
  | Some b =>
      (b0 = Some b \/ In (Some b) cs) /\
      (forall c, In (Some c) cs -> best_score c <= best_score b) /\
      (forall c, b0 = Some c -> best_score c <= best_score b)
  end.
Proof.
  revert b0; induction cs as [|c cs IH]; intros b0; cbn [fold_left].
  - destruct b0 as [b|].
    + split; [left; reflexivity|]. split; [intros c []|]. intros c H. injection H as <-.
      apply Qle_refl.
    + split; [reflexivity|constructor].
  - specialize (IH (keep_best b0 c)).
    destruct (fold_left keep_best cs (keep_best b0 c)) as [b|].
    + destruct IH as (H0 & Hmax & Hstart). split; [|split].
      * destruct H0 as [H0|H0]; [|right; right; exact H0].
        destruct (keep_best_cases b0 c) as [E|E]; rewrite E in H0;
          [left; exact H0|right; left; exact H0].
      * intros c' [->|Hc]; [|exact (Hmax c' Hc)].
        destruct (keep_best_ge_new b0 c') as (k & Ek & Hk).
        eapply Qle_trans; [exact Hk|]. apply Hstart. exact Ek.
      * intros c' ->. destruct (keep_best_ge_old c' c) as (k & Ek & Hk).
        eapply Qle_trans; [exact Hk|]. apply Hstart. exact Ek.
    + destruct IH as [H0 Hall].
      destruct c as [cb|]; [destruct b0; cbn [keep_best] in H0;
        [destruct (Qlt_bool _ _)|]; discriminate|].
      split; [exact H0|]. constructor; [reflexivity|exact Hall].
Qed.

Lemma In_combine_seq_nth {A} (l : list A) start i x :
  nth_error l i = Some x -> In (start + i, x)%nat (combine (seq start (List.length l)) l).
Proof.
  revert start i; induction l as [|y t IH]; intros start [|i] H; cbn in H; try discriminate.
  - injection H as <-. left. f_equal. lia.
  - right. replace (start + S i)%nat with (S start + i)%nat by lia. apply IH, H.
Qed.

Lemma In_all_tries av pos i vf t :
  In (pos, (i, vf), t) (all_tries av) <-> nth_error av pos = Some (i, vf) /\ (t < 5)%nat.
Proof.
  unfold all_tries. rewrite in_flat_map. split.
  - intros ([pos' p] & Hp & Ht). apply in_map_iff in Ht as (t' & Ht & Ht').
    injection Ht as <- <- <-. apply In_combine_seq in Hp as [_ Hp].
    rewrite Nat.sub_0_r in Hp. apply in_seq in Ht'. split; [exact Hp|lia].
  - intros [Hp Ht]. exists (pos, (i, vf)). split.
    + exact (In_combine_seq_nth av 0 pos (i, vf) Hp).
    + apply in_map_iff. exists t. split; [reflexivity|]. apply in_seq. lia.
Qed.

Lemma eval_files_In dw sel L d av b :
  eval_files dw sel L d av = Some b -> In (best_index b, best_file b) av.
Proof.
  rewrite eval_files_flat. intros E.
  pose proof (keep_best_fold (map (try_candidate dw sel L d) (all_tries av)) None) as H.
  rewrite E in H. destruct H as ([H0|H0] & _ & _); [discriminate|].
  apply in_map_iff in H0 as ([[pos [i vf]] t] & Hc & Hin).
  apply In_all_tries in Hin as [Hn _].
  unfold try_candidate in Hc. destruct (try_draw d pos t) as [[kr u] f].
  destruct (find_available_position vf L kr u); [|discriminate].
  injection Hc as <-. exact (nth_error_In _ _ Hn).
Qed.

Lemma smart_iter_stop dw needed L st d :
  smart_iter dw needed L st d = Stop ->
  (needed <= Z.of_nat (List.length (ss_selected st)))%Z \/ available_files (ss_files st) L = [].
Proof.
  unfold smart_iter.
  destruct (Z.ltb_spec (Z.of_nat (List.length (ss_selected st))) needed) as [Hlt|Hge];
    [|intros _; left; exact Hge].
  destruct (available_files (ss_files st) L) as [|p l] eqn:Hav; [intros _; right; reflexivity|].
  destruct (eval_files dw (ss_features st) L d (p :: l)); [discriminate|].
  destruct (choice_some (fb_pick_file d) (top_half (p :: l))) as [[i vf] Hc];
    [apply top_half_nonempty; discriminate|].
  rewrite Hc. destruct (find_available_position vf L (fb_pick_range d) (fb_u d)); discriminate.
Qed.

Lemma plain_loop_stop fuel needed L rng n st res fs :
  plain_loop fuel needed L rng n st = Some (res, fs) ->
  exists st' m, plain_iter needed L st' (rng m) = Stop /\
    res = sort_clips (ps_selected st') /\ fs = ps_files st'.
Proof.
  revert n st; induction fuel as [|fuel IH]; intros n st; cbn [plain_loop]; [discriminate|].
  destruct (plain_iter needed L st (rng n)) as [|st'] eqn:Hit.
  - intros H. injection H as <- <-. exists st, n. auto.
  - apply IH.
Qed.

Lemma smart_loop_stop fuel dw needed L rng n st res fs :
  smart_loop fuel dw needed L rng n st = Some (res, fs) ->
  exists st' m, smart_iter dw needed L st' (rng m) = Stop /\
    res = sort_clips (ss_selected st') /\ fs = ss_files st'.
Proof.
  revert n st; induction fuel as [|fuel IH]; intros n st; cbn [smart_loop]; [discriminate|].
  destruct (smart_iter dw needed L st (rng n)) as [|st'] eqn:Hit.
  - intros H. injection H as <- <-. exists st, n. auto.
  - apply IH.
Qed.

(** *** What a run does to the files *)

(** [vf'] is [vf] with possibly more used ranges. *)
Definition same_file (vf vf' : VideoFile) : Prop :=
  path vf' = path vf /\ duration vf' = duration vf /\ timestamp vf' = timestamp vf /\
  min_gap vf' = min_gap vf /\ incl (used_ranges vf) (used_ranges vf').

Lemma add_used_range_same vf s d : same_file vf (add_used_range vf s d).
Proof.
  unfold same_file, add_used_range. cbv zeta. cbn [path duration timestamp min_gap used_ranges].
  repeat split. destruct (existsb _ _); intros r Hr; [exact Hr|right; exact Hr].
Qed.

Lemma same_file_trans a b c : same_file a b -> same_file b c -> same_file a c.
Proof.
  intros (H1 & H2 & H3 & H4 & H5) (G1 & G2 & G3 & G4 & G5).
  split; [congruence|]. split; [congruence|]. split; [congruence|]. split; [congruence|].
  intros r Hr. apply G5, H5, Hr.
Qed.

Lemma same_files_refl l : Forall2 same_file l l.
Proof.
  induction l as [|x t IH]; constructor; [|exact IH].
  repeat split. intros r Hr; exact Hr.
Qed.

Lemma same_files_step v fs i vf s L :
  Forall2 same_file v fs -> nth_error fs i = Some vf ->
  Forall2 same_file v (replace_nth i (add_used_range vf s L) fs).
Proof.
  intros H. revert i; induction H as [|x y l1 l2 Hxy H IH]; intros [|i] Hi;
    cbn in Hi |- *; try discriminate.
  - injection Hi as ->. constructor; [|exact H].
    eapply same_file_trans; [exact Hxy|apply add_used_range_same].
  - constructor; [exact Hxy|]. apply IH, Hi.
Qed.

Lemma plain_iter_files needed L st d st' :
  plain_iter needed L st d = Next st' ->
  ps_files st' = ps_files st \/
  exists i vf s, nth_error (ps_files st) i = Some vf /\
    ps_files st' = replace_nth i (add_used_range vf s L) (ps_files st).
Proof.
  unfold plain_iter.
  destruct (Z.ltb _ _); [|discriminate].
  destruct (available_files (ps_files st) L) as [|p l] eqn:Hav; [discriminate|].
  destruct (choice (pick_file d) (top_half (p :: l))) as [[i vf]|] eqn:Hc; [|discriminate].
  rewrite <- Hav in Hc. apply choice_top_half in Hc as [Hi _].
  destruct (find_available_position vf L (pick_range d) (pick_u d)) as [s|].
  - intros H. injection H as <-. right. exists i, vf, s. auto.
  - intros H. injection H as <-. left. reflexivity.
Qed.

Lemma smart_iter_files dw needed L st d st' :
  smart_iter dw needed L st d = Next st' ->
  ss_files st' = ss_files st \/
  exists i vf s, nth_error (ss_files st) i = Some vf /\
    ss_files st' = replace_nth i (add_used_range vf s L) (ss_files st).
Proof.
  unfold smart_iter.
  destruct (Z.ltb _ _); [|discriminate].
  destruct (available_files (ss_files st) L) as [|p l] eqn:Hav; [discriminate|].
  destruct (eval_files dw (ss_features st) L d (p :: l)) as [b|] eqn:He.
  - intros H. injection H as <-. right.
    apply eval_files_In in He. rewrite <- Hav in He.
    apply available_files_In in He as [Hi _].
    exists (best_index b), (best_file b), (best_start b). split; [exact Hi|reflexivity].
  - destruct (choice (fb_pick_file d) (top_half (p :: l))) as [[i vf]|] eqn:Hc; [|discriminate].
    rewrite <- Hav in Hc. apply choice_top_half in Hc as [Hi _].
    destruct (find_available_position vf L (fb_pick_range d) (fb_u d)) as [s|].
    + intros H. injection H as <-. right. exists i, vf, s. auto.
    + intros H. injection H as <-. left. reflexivity.
Qed.

Lemma plain_loop_files v fuel needed L rng n st res fs :
  Forall2 same_file v (ps_files st) -> plain_loop fuel needed L rng n st = Some (res, fs) ->
  Forall2 same_file v fs.
Proof.
  revert n st; induction fuel as [|fuel IH]; intros n st Hst; cbn [plain_loop]; [discriminate|].
  destruct (plain_iter needed L st (rng n)) as [|st'] eqn:Hit.
  - intros H. injection H as _ <-. exact Hst.
  - apply IH. destruct (plain_iter_files _ _ _ _ _ Hit) as [->|(i & vf & s & Hi & ->)];
      [exact Hst|]. apply same_files_step; assumption.
Qed.

Lemma smart_loop_files v fuel dw needed L rng n st res fs :
  Forall2 same_file v (ss_files st) -> smart_loop fuel dw needed L rng n st = Some (res, fs) ->
  Forall2 same_file v fs.
Proof.
  revert n st; induction fuel as [|fuel IH]; intros n st Hst; cbn [smart_loop]; [discriminate|].
  destruct (smart_iter dw needed L st (rng n)) as [|st'] eqn:Hit.
  - intros H. injection H as _ <-. exact Hst.
  - apply IH. destruct (smart_iter_files _ _ _ _ _ _ Hit) as [->|(i & vf & s & Hi & ->)];
      [exact Hst|]. apply same_files_step; assumption.
Qed.

(** *** [create_timeline_from_clips] *)

Lemma import_clips_items api i clips a :
  In a (import_clips api i clips) ->
  exists clip, (i <= ac_item a)%nat /\ nth_error clips (ac_item a - i) = Some clip /\
    import_ok api (ac_item a) = true /\
    ac_start a = ClipInfo.start clip /\ ac_duration a = ClipInfo.duration clip.
Proof.
  revert i; induction clips as [|c t IH]; intros i; cbn [import_clips]; [intros []|].
  intros H. apply in_app_or in H as [H|H].
  - destruct (import_ok api i) eqn:E; [|destruct H].
    destruct H as [<-|[]]. exists c. cbn [ac_item ac_start ac_duration].
    rewrite Nat.sub_diag. auto.
  - destruct (IH (S i) H) as (clip & Hle & Hn & Hok & Hs & Hd). exists clip.
    split; [lia|]. split; [|auto]. replace (ac_item a - i)%nat with (S (ac_item a - S i)) by lia.
    exact Hn.
Qed.

Lemma import_clips_sorted api i clips :
  StronglySorted lt (map ac_item (import_clips api i clips)).
Proof.
  revert i; induction clips as [|c t IH]; intros i; cbn [import_clips]; [constructor|].
  destruct (import_ok api i); cbn [app map]; [|apply IH].
  constructor; [apply IH|]. apply Forall_forall. intros j Hj.
  apply in_map_iff in Hj as (a & <- & Ha). apply import_clips_items in Ha as (_ & Hle & _).
  cbn [ac_item]. lia.
Qed.

Lemma import_clips_complete api i clips j :
  (i <= j < i + List.length clips)%nat -> import_ok api j = true ->
  In j (map ac_item (import_clips api i clips)).
Proof.
  revert i; induction clips as [|c t IH]; intros i Hj Hok; cbn [List.length] in Hj; [lia|].
  cbn [import_clips]. rewrite map_app. apply in_or_app.
  destruct (Nat.eq_dec i j) as [->|Hne].
  - left. rewrite Hok. left. reflexivity.
  - right. apply IH; [lia|exact Hok].
Qed.

Lemma import_clips_range api i clips j :
  In j (map ac_item (import_clips api i clips)) ->
  (i <= j < i + List.length clips)%nat /\ import_ok api j = true.
Proof.
  intros Hj. apply in_map_iff in Hj as (a & <- & Ha).
  destruct (import_clips_items api i clips a Ha) as (clip & Hle & Hn & Hok & _).
  split; [|exact Hok]. split; [exact Hle|].
  assert (Hlt : (ac_item a - i < List.length clips)%nat) by (apply nth_error_Some; congruence).
  lia.
Qed.

Lemma append_clips_spec api added :
  match fst (append_clips api added) with
  | PyOk _ => map item_clip (snd (append_clips api added)) = map ac_item added
  | PyRaise e =>
      exists pre a post, added = pre ++ a :: post /\
        map item_clip (snd (append_clips api added)) = map ac_item pre /\
        fps_property api (ac_item a) = None
  end /\
  forall it, In it (snd (append_clips api added)) ->
    exists a fps, In a added /\ item_clip it = ac_item a /\ fps_property api (ac_item a) = Some fps /\
      start_frame it = py_int (ac_start a * fps) /\
      end_frame it = py_int ((ac_start a + ac_duration a) * fps).
Proof.
  induction added as [|a rest [IHr IHi]]; cbn [append_clips].
  - split; [reflexivity|]. intros it [].
  - destruct (fps_property api (ac_item a)) as [fps|] eqn:Ef.
    + destruct (append_clips api rest) as [r items]. cbn [fst snd] in *. split.
      * destruct r as [u|e]; cbn [map].
        -- rewrite IHr. reflexivity.
        -- destruct IHr as (pre & b & post & -> & Hm & Hb).
           exists (a :: pre), b, post. cbn [app map]. rewrite Hm. auto.
      * intros it [<-|Hit].
        -- exists a, fps. cbn [item_clip start_frame end_frame]. split; [left; reflexivity|]. auto.
        -- destruct (IHi it Hit) as (a' & fps' & Ha' & H). exists a', fps'. split; [right; exact Ha'|].
           exact H.
    + cbn [fst snd]. split.
      * exists [], a, rest. auto.
      * intros it [].
Qed.

Lemma py_int_nonneg q : 0 <= q -> py_int q = Qfloor q.
Proof. intros H. unfold py_int. rewrite (Qle_bool_true 0 q H). reflexivity. Qed.

Lemma floor_diff_bound a b :
  Qabs (inject_Z (Qfloor b - Qfloor a) - (b - a)) < 1.
Proof.
  pose proof (Qfloor_le a). pose proof (Qfloor_le b).
  pose proof (Qlt_floor a). pose proof (Qlt_floor b).
  unfold Z.sub. rewrite inject_Z_plus, inject_Z_opp. rewrite inject_Z_plus in *.
  change (inject_Z 1) with 1 in *.
  apply Qabs_Qlt_condition. split; lra.
Qed.

(** The run of [create_timeline_from_clips] used below: three clips, the
    second of which fails to import, at 30 frames per second. *)
Definition timeline_api : ResolveApi :=
  mkResolveApi true true true true true (fun i => negb (Nat.eqb i 1)) true (fun _ => Some 30).

Definition timeline_clips : list ClipInfo.t :=
  [clip10; ClipInfo.mk "c.mp4" 0 4 "20240101000000" 0 0 0;
   ClipInfo.mk "d.mp4" (3 # 2) 5 "20240102000000" 0 0 0].

(** * The claims *)

(** C1: every file the engine works on, fresh or after any commits of
    either policy, has a [min_gap] of [1], its used ranges inside the file,
    and any two of its used ranges at least [1] apart (so not overlapping);
    and a run of either policy on such files leaves them such files. *)
Theorem committed_ranges_separated :
  (forall vf, reachable vf ->
     min_gap vf = 1 /\ Forall (proper (duration vf)) (used_ranges vf) /\
     ForallOrdPairs (fun x y => snd x + 1 <= fst y \/ snd y + 1 <= fst x) (used_ranges vf)) /\
  (forall fuel rng srng dw video_files L T res fs,
     0 < L -> (forall m, valid_u (pick_u (rng m))) -> (forall m, smart_draw_ok (srng m)) ->
     Forall reachable video_files ->
     (select_clips fuel rng video_files L T = Some (res, fs) \/
      select_clips_smart fuel srng video_files L T dw = Some (res, fs)) ->
     Forall reachable fs).
Proof.
  split.
  - intros vf Hr. destruct (reachable_ok vf Hr) as [Hg [Hp Hs]].
    rewrite Hg in Hs. split; [exact Hg|]. split; [exact Hp|exact Hs].
  - intros fuel rng srng dw video_files L T res fs HL Hrng Hsrng Hreach Hrun.
    destruct (selection_run_inv fuel rng srng dw video_files L T res fs HL Hrng Hsrng
                Hreach Hrun) as (sel & [[Hfs _] _] & _).
    exact Hfs.
Qed.

Lemma committed_ranges_separated_witness :
  exists res vf, select_clips 10 (const_draw 0) [file10] 4 12 = Some (res, [vf]) /\
    List.length (used_ranges vf) = 2%nat /\
    ForallOrdPairs (fun x y => snd x + 1 <= fst y \/ snd y + 1 <= fst x) (used_ranges vf).
Proof.
  destruct (select_clips 10 (const_draw 0) [file10] 4 12) as [[res fs]|] eqn:E;
    [|vm_compute in E; discriminate].
  pose proof (proj2 committed_ranges_separated 10%nat (const_draw 0) (const_smart_draw 0) 0
                [file10] 4 12 res fs ltac:(lra) (const_draw_valid 0 ltac:(lra) ltac:(lra))
                (const_smart_draw_valid 0 ltac:(lra) ltac:(lra))
                (Forall_cons file10 file10_reachable (Forall_nil _)) (or_introl E)) as Hfs.
  vm_compute in E. injection E as <- <-.
  eexists. eexists. split; [vm_compute; reflexivity|]. split; [vm_compute; reflexivity|].
  apply (proj1 committed_ranges_separated). exact (Forall_inv Hfs).
Defined.

(** C2 (code bug): [can_extract_clip] and [find_available_position]
    disagree both ways.  On a fresh file of [10] seconds, [L = 9.5] is
    rejected by [can_extract_clip] (its fresh-file test asks for
    [L + min_gap] of room) while [find_available_position] finds a start
    for every draw.  On a [10]-second file with one clip of [4] committed
    at a start in [(1, 5)], a clip of [4] is accepted by [can_extract_clip]
    (through its first check, which leaves out [min_gap], or its
    aggregate fallback) while [find_available_position] finds no start for
    any draw. *)
Theorem can_extract_clip_disagrees_with_find :
  (can_extract_clip file10 (19 # 2) = false /\
   forall k u, find_available_position file10 (19 # 2) k u = Some (uniform 0 (10 - (19 # 2)) u)) /\
  (forall u, 1 # 6 < u -> u < 5 # 6 ->
     let s := uniform 0 (duration stuck_file - 4) u in
     find_available_position stuck_file 4 0 u = Some s /\
     reachable (add_used_range stuck_file s 4) /\
     can_extract_clip (add_used_range stuck_file s 4) 4 = true /\
     forall k u', find_available_position (add_used_range stuck_file s 4) 4 k u' = None).
Proof.
  split.
  - split; [reflexivity|]. intros k u. apply find_fresh. reflexivity.
  - intros u H1 H2. cbv zeta.
    assert (Hs1 : 1 < uniform 0 (duration stuck_file - 4) u)
      by (unfold uniform; change (duration stuck_file) with 10; lra).
    assert (Hs2 : uniform 0 (duration stuck_file - 4) u < 5)
      by (unfold uniform; change (duration stuck_file) with 10; lra).
    assert (Hf : find_available_position stuck_file 4 0 u = Some (uniform 0 (duration stuck_file - 4) u))
      by (apply find_fresh; reflexivity).
    split; [exact Hf|].
    split; [|split; [apply stuck_can|intros k u'; apply stuck_find; assumption]].
    apply (reachable_commit stuck_file 4 0%nat u).
    + unfold stuck_file. apply reachable_new. cbn [duration new_video_file]. lra.
    + lra.
    + lra.
    + lra.
    + reflexivity.
    + exact Hf.
Qed.

Lemma can_extract_clip_disagrees_with_find_witness :
  can_extract_clip (add_used_range stuck_file (uniform 0 (duration stuck_file - 4) (1 # 2)) 4) 4 = true /\
  find_available_position (add_used_range stuck_file (uniform 0 (duration stuck_file - 4) (1 # 2)) 4)
    4 0 0 = None.
Proof.
  destruct (proj2 can_extract_clip_disagrees_with_find (1 # 2) ltac:(lra) ltac:(lra))
    as (_ & _ & Hc & Hf).
  split; [exact Hc|apply Hf].
Defined.

(** C3 (amended): for the [i]-th clip of [optimize_clip_transitions]
    with at least one scene-change draw, the offset [c] of the draw closest
    to [duration / 2] is compared with [0.2 * duration] itself: the clip
    starts at [start + c] when [|c| <= 0.2 * duration] and is left
    unchanged otherwise. *)
Theorem optimize_accepts_small_offset clips sd i clip :
  nth_error clips i = Some clip -> sd i <> [] ->
  exists c, In c (sd i) /\
    (forall y, In y (sd i) ->
       Qabs (c - ClipInfo.duration clip / 2) <= Qabs (y - ClipInfo.duration clip / 2)) /\
    (Qabs c <= ClipInfo.duration clip * (2 # 10) ->
     nth_error (optimize_clip_transitions clips sd) i =
       Some (ClipInfo.mk (ClipInfo.file clip) (ClipInfo.start clip + c) (ClipInfo.duration clip)
               (ClipInfo.file_timestamp clip) (ClipInfo.scene_score clip)
               (ClipInfo.motion_score clip) (ClipInfo.color_variance clip))) /\
    (ClipInfo.duration clip * (2 # 10) < Qabs c ->
     nth_error (optimize_clip_transitions clips sd) i = Some clip).
Proof.
  intros Hi Hne. destruct (optimize_clip_cases clip (sd i) Hne) as (c & Hc & Hmin & Heq).
  exists c. split; [exact Hc|]. split; [exact Hmin|].
  unfold optimize_clip_transitions. rewrite nth_error_optimize_from, Hi, Nat.add_0_l, Heq.
  split; intros H.
  - rewrite (Qle_bool_true _ _ H). reflexivity.
  - rewrite (Qle_bool_false_intro _ _ H). reflexivity.
Qed.

Lemma optimize_accepts_small_offset_witness :
  exists c, In c [1] /\
    nth_error (optimize_clip_transitions [clip10] (fun _ => [1])) 0 =
      Some (ClipInfo.mk "b.mp4" (0 + c) 10 "20240101000000" 0 0 0).
Proof.
  destruct (optimize_accepts_small_offset [clip10] (fun _ => [1]) 0 clip10 eq_refl
              ltac:(discriminate)) as (c & Hc & _ & Hacc & _).
  exists c. split; [exact Hc|]. apply Hacc.
  destruct Hc as [<-|[]]. apply Qle_bool_iff. reflexivity.
Defined.

(** C3 counterexample: a clip of [10] seconds whose only candidate is
    the midpoint offset [5]: [|5 - 10/2| <= 0.2 * 10], but the clip is
    left unchanged (start [0], not [5]). *)
Lemma optimize_rejects_midpoint_candidate :
  Qabs (5 - 10 / 2) <= 10 * (2 # 10) /\
  optimize_clip_transitions [clip10] (fun _ => [5]) = [clip10].
Proof. split; [apply Qle_bool_iff; reflexivity|reflexivity]. Qed.

(** C4 (amended): the list either policy returns is sorted by
    [(file_timestamp, start)]; after [optimize_clip_transitions] it is
    still sorted by [file_timestamp] (the starts may fall out of order). *)
Theorem selection_sorted fuel rng srng dw video_files L T res fs sd :
  (select_clips fuel rng video_files L T = Some (res, fs) \/
   select_clips_smart fuel srng video_files L T dw = Some (res, fs)) ->
  StronglySorted clip_le res /\
  StronglySorted timestamp_le (optimize_clip_transitions res sd).
Proof.
  intros Hrun. destruct (selection_sorted_len fuel rng srng dw video_files L T res fs Hrun)
    as (sel & _ & ->).
  split; [apply sort_clips_sorted|]. apply optimize_timestamp_sorted. apply sort_clips_sorted.
Qed.

Lemma selection_sorted_witness :
  exists res fs, select_clips 5 two_starts [file_a; file_b] 5 10 = Some (res, fs) /\
    StronglySorted clip_le res.
Proof.
  destruct (select_clips 5 two_starts [file_a; file_b] 5 10) as [[res fs]|] eqn:E;
    [|vm_compute in E; discriminate].
  exists res, fs. split; [reflexivity|].
  apply (selection_sorted 5%nat two_starts (const_smart_draw 0) 0 [file_a; file_b] 5 10
           res fs two_scenes (or_introl E)).
Defined.

(** C4 counterexample: two files of [20] seconds with the same timestamp,
    clips of [5] seconds, [10] seconds wanted: the selection returns starts
    [5] and [5.5]; the optimizer moves the first to [6] and keeps the
    second, so the output is not sorted by [(file_timestamp, start)]. *)
Lemma optimizer_breaks_start_order :
  exists res fs, select_clips 5 two_starts [file_a; file_b] 5 10 = Some (res, fs) /\
    ~ StronglySorted clip_le (optimize_clip_transitions res two_scenes).
Proof.
  destruct (select_clips 5 two_starts [file_a; file_b] 5 10) as [[res fs]|] eqn:E;
    [|vm_compute in E; discriminate].
  exists res, fs. split; [reflexivity|].
  vm_compute in E. injection E as <- <-. intros Hs.
  apply StronglySorted_inv in Hs as [_ Hall]. inversion Hall as [|? ? Hle _]; subst.
  unfold clip_le in Hle. vm_compute in Hle.
  destruct Hle as [H|[_ H]]; [discriminate H|]. apply H. reflexivity.
Qed.

(** C5 (code bug): one file of [5] seconds, clip length [5] and target
    [5]: [num_clips_needed] is [1] and [total_possible_clips] is [1], so no
    shortfall is reported, yet both policies return no clip, for every
    random draw, because [can_extract_clip] rejects the fresh file (it asks
    for [5 + min_gap] seconds of room). *)
Theorem exact_fit_file_gets_no_clip fuel rng srng dw :
  num_clips_needed [file5] 5 5 = 1%Z /\ total_possible_clips [file5] 5 = 1%Z /\
  can_extract_clip file5 5 = false /\
  select_clips (S fuel) rng [file5] 5 5 = Some ([], [file5]) /\
  select_clips_smart (S fuel) srng [file5] 5 5 dw = Some ([], [file5]).
Proof.
  split; [reflexivity|]. split; [reflexivity|]. split; [reflexivity|].
  unfold select_clips, select_clips_smart. cbn [plain_loop smart_loop].
  unfold plain_iter, smart_iter. cbn [ps_selected ps_files ss_selected ss_files].
  change (available_files [file5] 5) with (@nil (nat * VideoFile)).
  split; destruct (Z.ltb _ _); reflexivity.
Qed.

(** Whether a call of [analyze_video_segment] reaches a statement that
    sets the random scores: the temporary file is created, and [ffprobe]
    either succeeds and its output is read back, or fails with
    [CalledProcessError]. *)
Definition gets_random_features (env : AnalysisEnv) : bool :=
  tempfile_ok env &&
  match ffprobe_outcome env with
  | None => json_ok env
  | Some e => is_called_process_error e
  end.

(** Scores in [[0.1, 0.9]]. *)
Definition default_range (f : Features) : Prop :=
  1 # 10 <= scene_score f <= 9 # 10 /\ 1 # 10 <= motion_score f <= 9 # 10 /\
  1 # 10 <= color_variance f <= 9 # 10.

(** C6 (amended): [analyze_video_segment] never raises; it returns the
    three [random.uniform(0.1, 0.9)] scores when [gets_random_features]
    holds (whatever [os.remove] does), and all-zero scores, outside
    [[0.1, 0.9]], on any other failure. *)
Theorem analyze_video_segment_outcome env file_path start_time d u1 u2 u3 :
  valid_u u1 -> valid_u u2 -> valid_u u3 ->
  analyze_video_segment env file_path start_time d u1 u2 u3 =
    PyOk (if gets_random_features env then random_features u1 u2 u3 else zero_features) /\
  default_range (random_features u1 u2 u3) /\ ~ default_range zero_features.
Proof.
  intros [H1 H1'] [H2 H2'] [H3 H3']. split; [|split].
  - destruct env as [[] [[|]|] [] []]; reflexivity.
  - unfold default_range, random_features, uniform. cbn [scene_score motion_score color_variance].
    repeat split; lra.
  - unfold default_range. cbn [scene_score zero_features]. lra.
Qed.

Lemma analyze_video_segment_outcome_witness :
  analyze_video_segment (mkAnalysisEnv true None true false) "a.mp4" 0 5 (1 # 2) (1 # 2) (1 # 2)
    = PyOk (random_features (1 # 2) (1 # 2) (1 # 2)).
Proof.
  apply (proj1 (analyze_video_segment_outcome (mkAnalysisEnv true None true false) "a.mp4" 0 5
                  (1 # 2) (1 # 2) (1 # 2) ltac:(split; lra) ltac:(split; lra) ltac:(split; lra))).
Defined.

(** C6 counterexample: [ffprobe] failing with an exception other than
    [CalledProcessError] (an [OSError] when it is not installed) gives
    scores of [0], outside [[0.1, 0.9]]. *)
Lemma analyze_other_error_gives_zeros :
  analyze_video_segment (mkAnalysisEnv true (Some OtherException) true true) "a.mp4" 0 5
    (1 # 2) (1 # 2) (1 # 2) = PyOk zero_features /\
  scene_score zero_features < 1 # 10.
Proof. split; [reflexivity|]. cbn. lra. Qed.

(** C7 (amended): every clip either policy returns has length [L] and is
    registered in its file: its window is a used range of a file of the
    final list with its path and timestamp, and lies in [[0, duration]].
    [optimize_clip_transitions] (draws in [[0, duration]]) then moves each
    start forward by at most [0.2 * duration], so the window may leave the
    registered range and the file. *)
Theorem selected_clips_registered fuel rng srng dw video_files L T res fs sd :
  0 < L -> (forall m, valid_u (pick_u (rng m))) -> (forall m, smart_draw_ok (srng m)) ->
  Forall reachable video_files ->
  (forall j, Forall (fun x => 0 <= x) (sd j)) ->
  (select_clips fuel rng video_files L T = Some (res, fs) \/
   select_clips_smart fuel srng video_files L T dw = Some (res, fs)) ->
  Forall (fun c => ClipInfo.duration c = L /\ clip_registered fs c) res /\
  Forall2 shifted_by_at_most_fifth res (optimize_clip_transitions res sd).
Proof.
  intros HL Hrng Hsrng Hreach Hsd Hrun.
  destruct (selection_run_inv fuel rng srng dw video_files L T res fs HL Hrng Hsrng
              Hreach Hrun) as (sel & [[_ Hsel] _] & ->).
  assert (Hres : Forall (fun c => ClipInfo.duration c = L /\ clip_registered fs c) (sort_clips sel))
    by (eapply Permutation_Forall; [apply sort_clips_perm|exact Hsel]).
  split; [exact Hres|].
  apply optimize_from_shift; [|exact Hsd].
  eapply Forall_impl; [|exact Hres]. intros c [-> _]. exact HL.
Qed.

Lemma selected_clips_registered_witness :
  exists res fs, select_clips 5 (const_draw (1 # 2)) [file10] 5 5 = Some (res, fs) /\
    Forall (fun c => ClipInfo.duration c = 5 /\ clip_registered fs c) res.
Proof.
  destruct (select_clips 5 (const_draw (1 # 2)) [file10] 5 5) as [[res fs]|] eqn:E;
    [|vm_compute in E; discriminate].
  exists res, fs. split; [reflexivity|].
  apply (selected_clips_registered 5%nat (const_draw (1 # 2)) (const_smart_draw 0) 0 [file10]
           5 5 res fs (fun _ => [1])).
  - lra.
  - apply const_draw_valid; lra.
  - apply const_smart_draw_valid; lra.
  - constructor; [exact file10_reachable|constructor].
  - intros j. constructor; [lra|constructor].
  - left. exact E.
Defined.

(** C7 counterexample: a file of [10] seconds, [L = 5], [T = 5] and the
    start [4.9] (range [(4.9, 9.9)] registered): a scene change at offset
    [1] moves the clip to [[5.9, 10.9]], past the end of the file. *)
Lemma optimized_clip_past_file_end :
  exists res fs, select_clips 5 (const_draw (49 # 50)) [file10] 5 5 = Some (res, fs) /\
    exists c, In c (optimize_clip_transitions res (fun _ => [1])) /\
      duration file10 < ClipInfo.start c + ClipInfo.duration c.
Proof.
  destruct (select_clips 5 (const_draw (49 # 50)) [file10] 5 5) as [[res fs]|] eqn:E;
    [|vm_compute in E; discriminate].
  exists res, fs. split; [reflexivity|].
  vm_compute in E. injection E as <- <-.
  eexists. split; [left; reflexivity|]. apply Qlt_bool_iff. vm_compute. reflexivity.
Qed.

(** C8: both policies loop forever on one file of [10] seconds with clips
    of [4] seconds and [8] seconds wanted, once the first start lands in
    [(1, 5)] (a draw [u] in [(1/6, 5/6)]): [can_extract_clip] keeps holding
    through its last test ([10 - 4 >= 4 + 1]) while
    [find_available_position] has no candidate and raises [ValueError],
    which the loops catch and retry with nothing changed.  No amount of
    fuel gives a result. *)
Theorem selection_never_returns fuel rng srng dw :
  1 # 6 < pick_u (rng 0%nat) -> pick_u (rng 0%nat) < 5 # 6 ->
  (forall pos t, 1 # 6 < snd (fst (try_draw (srng 0%nat) pos t)) /\
                 snd (fst (try_draw (srng 0%nat) pos t)) < 5 # 6) ->
  1 # 6 < fb_u (srng 0%nat) -> fb_u (srng 0%nat) < 5 # 6 ->
  select_clips fuel rng [stuck_file] 4 8 = None /\
  select_clips_smart fuel srng [stuck_file] 4 8 dw = None.
Proof.
  intros Hu1 Hu2 Htry Hfb1 Hfb2. split.
  - unfold select_clips. rewrite stuck_needed.
    destruct fuel as [|fuel]; [reflexivity|]. cbn [plain_loop].
    destruct (plain_first_step (rng 0%nat)) as (sel & Hl & ->).
    apply plain_loop_stuck; [unfold uniform; lra|unfold uniform; lra|exact Hl].
  - unfold select_clips_smart. rewrite stuck_needed.
    destruct fuel as [|fuel]; [reflexivity|]. cbn [smart_loop].
    destruct (smart_first_step dw (srng 0%nat) Htry Hfb1 Hfb2)
      as (s & st' & Hs1 & Hs2 & -> & Hf & Hl).
    apply (smart_loop_stuck fuel dw srng 1 s st'); assumption.
Qed.

Lemma selection_never_returns_witness :
  select_clips 1000 (const_draw (1 # 2)) [stuck_file] 4 8 = None /\
  select_clips_smart 1000 (const_smart_draw (1 # 2)) [stuck_file] 4 8 0 = None.
Proof.
  apply (selection_never_returns 1000 (const_draw (1 # 2)) (const_smart_draw (1 # 2)) 0);
    cbn; try lra.
  intros pos t. split; lra.
Defined.

(** C9: [get_available_duration] is the duration minus the summed lengths
    of the used ranges minus [min_gap * (n - 1)] when there are [n > 1]
    ranges, the duration itself when none is used, and never negative on a
    file the engine can reach.  It reads the file and changes nothing, so
    two calls in a row give the same value. *)
Theorem get_available_duration_spec vf :
  get_available_duration vf ==
    duration vf - sum_lengths (used_ranges vf)
    - (if Nat.ltb 1 (List.length (used_ranges vf))
       then min_gap vf * inject_Z (Z.of_nat (List.length (used_ranges vf)) - 1) else 0) /\
  (used_ranges vf = [] -> get_available_duration vf = duration vf) /\
  (reachable vf -> 0 <= get_available_duration vf).
Proof.
  split; [|split].
  - unfold get_available_duration. destruct (used_ranges vf) as [|r rs]; [|reflexivity].
    change (sum_lengths []) with 0.
    change (Nat.ltb 1 (List.length (@nil range))) with false. cbv beta iota. ring.
  - intros Hu. unfold get_available_duration. rewrite Hu. reflexivity.
  - apply get_available_duration_nonneg.
Qed.

Lemma get_available_duration_spec_witness :
  0 <= get_available_duration sample_file /\ get_available_duration file10 = 10.
Proof.
  split.
  - apply (proj2 (proj2 (get_available_duration_spec sample_file)) sample_reachable).
  - apply (proj1 (proj2 (get_available_duration_spec file10)) eq_refl).
Defined.

(** C10: with no used range, [find_available_position] finds, for any
    [0 <= L <= duration], a start in [[0, duration - L]]. *)
Theorem find_available_position_fresh vf L k u :
  used_ranges vf = [] -> 0 <= L -> L <= duration vf -> valid_u u ->
  exists s, find_available_position vf L k u = Some s /\ 0 <= s /\ s <= duration vf - L.
Proof.
  intros Hu HL HD [Hu0 Hu1]. exists (uniform 0 (duration vf - L) u).
  split; [apply find_fresh; exact Hu|].
  apply uniform_bounds; lra.
Qed.

Lemma find_available_position_fresh_witness :
  exists s, find_available_position file10 4 0 (1 # 2) = Some s /\ 0 <= s /\ s <= 10 - 4.
Proof.
  apply (find_available_position_fresh file10 4 0 (1 # 2) eq_refl);
    [lra|apply Qle_bool_iff; reflexivity|split; lra].
Defined.

(** * Further properties of the code *)

(** X1: [get_video_duration] takes the ['duration'] of [probe['format']]
    when [float()] accepts it, whatever the streams hold; without one it
    takes the ['duration'] of the first video stream that has one, the
    streams before it having a ['codec_type']. *)
Theorem get_video_duration_sources pr q pre s post :
  (format_duration pr = Some (Some (FloatStr q)) -> get_video_duration (PyOk pr) = Some q) /\
  ((format_duration pr = None \/ format_duration pr = Some None) ->
   streams pr = Some (pre ++ s :: post) -> forallb skipped_stream pre = true ->
   codec_type s = Some "video"%string -> stream_duration s = Some (FloatStr q) ->
   get_video_duration (PyOk pr) = Some q).
Proof.
  split.
  - intros Hf. unfold get_video_duration, get_video_duration_body. rewrite Hf. reflexivity.
  - intros Hf Hs Hpre Hct Hd. unfold get_video_duration, get_video_duration_body.
    assert (Hb : match format_duration pr with
                 | Some (Some v) => match py_float v with PyOk q => PyOk (Some q) | PyRaise e => PyRaise e end
                 | _ => match streams pr with None => PyRaise OtherException | Some l => scan_streams l end
                 end = scan_streams (pre ++ s :: post)).
    { destruct Hf as [-> | ->]; rewrite Hs; reflexivity. }
    rewrite Hb, scan_streams_skip by exact Hpre. simpl. rewrite Hct, Hd. reflexivity.
Qed.

Lemma get_video_duration_sources_witness :
  get_video_duration (PyOk (mkProbe (Some (Some (FloatStr 12))) None)) = Some 12 /\
  get_video_duration (PyOk (mkProbe (Some None)
    (Some [mkProbeStream (Some "audio"%string) (Some (FloatStr 3));
           mkProbeStream (Some "video"%string) (Some (FloatStr 7))]))) = Some 7.
Proof.
  split.
  - apply (proj1 (get_video_duration_sources (mkProbe (Some (Some (FloatStr 12))) None) 12 [] 
                    (mkProbeStream None None) [])). reflexivity.
  - apply (proj2 (get_video_duration_sources
             (mkProbe (Some None) (Some [mkProbeStream (Some "audio"%string) (Some (FloatStr 3));
                                         mkProbeStream (Some "video"%string) (Some (FloatStr 7))]))
             7 [mkProbeStream (Some "audio"%string) (Some (FloatStr 3))]
             (mkProbeStream (Some "video"%string) (Some (FloatStr 7))) []));
      [right; reflexivity|reflexivity|reflexivity|reflexivity|reflexivity].
Defined.

(** X2: [get_video_duration] never raises and gives [None] when
    [ffmpeg.probe] raises; when [float()] rejects the format's
    ['duration'] (the streams are then not consulted); and, without a
    format duration, when ['streams'] is missing, when a stream without
    ['codec_type'] comes before any video stream with a ['duration'], when
    [float()] rejects the ['duration'] of the first such stream, or when
    there is no such stream. *)
Theorem get_video_duration_none pr e pre s post :
  get_video_duration (PyRaise e) = None /\
  (format_duration pr = Some (Some BadFloatStr) -> get_video_duration (PyOk pr) = None) /\
  ((format_duration pr = None \/ format_duration pr = Some None) ->
   (streams pr = None -> get_video_duration (PyOk pr) = None) /\
   (streams pr = Some (pre ++ s :: post) -> forallb skipped_stream pre = true ->
    codec_type s = None -> get_video_duration (PyOk pr) = None) /\
   (streams pr = Some (pre ++ s :: post) -> forallb skipped_stream pre = true ->
    codec_type s = Some "video"%string -> stream_duration s = Some BadFloatStr ->
    get_video_duration (PyOk pr) = None) /\
   (forall l, streams pr = Some l -> forallb skipped_stream l = true ->
    get_video_duration (PyOk pr) = None)).
Proof.
  split; [reflexivity|]. split.
  - intros Hf. unfold get_video_duration, get_video_duration_body. rewrite Hf. reflexivity.
  - intros Hf.
    assert (Hb : forall l, streams pr = Some l ->
              get_video_duration (PyOk pr) =
              match scan_streams l with PyOk r => r | PyRaise _ => None end).
    { intros l Hl. unfold get_video_duration, get_video_duration_body.
      destruct Hf as [-> | ->]; rewrite Hl; reflexivity. }
    split; [|split; [|split]].
    + intros Hs. unfold get_video_duration, get_video_duration_body.
      destruct Hf as [-> | ->]; rewrite Hs; reflexivity.
    + intros Hs Hpre Hct. rewrite (Hb _ Hs), scan_streams_skip by exact Hpre.
      simpl. rewrite Hct. reflexivity.
    + intros Hs Hpre Hct Hd. rewrite (Hb _ Hs), scan_streams_skip by exact Hpre.
      simpl. rewrite Hct, Hd. reflexivity.
    + intros l Hs Hall. rewrite (Hb _ Hs), scan_streams_all_skipped by exact Hall. reflexivity.
Qed.

Lemma get_video_duration_none_witness :
  get_video_duration (PyOk (mkProbe (Some (Some BadFloatStr))
    (Some [mkProbeStream (Some "video"%string) (Some (FloatStr 7))]))) = None /\
  get_video_duration (PyOk (mkProbe None
    (Some [mkProbeStream None None; mkProbeStream (Some "video"%string) (Some (FloatStr 7))]))) = None.
Proof.
  split.
  - apply (proj1 (proj2 (get_video_duration_none
             (mkProbe (Some (Some BadFloatStr))
                (Some [mkProbeStream (Some "video"%string) (Some (FloatStr 7))]))
             OtherException [] (mkProbeStream None None) []))). reflexivity.
  - destruct (get_video_duration_none
             (mkProbe None (Some [mkProbeStream None None;
                                  mkProbeStream (Some "video"%string) (Some (FloatStr 7))]))
             OtherException [] (mkProbeStream None None)
             [mkProbeStream (Some "video"%string) (Some (FloatStr 7))]) as (_ & _ & H).
    destruct (H (or_introl eq_refl)) as (_ & H2 & _). apply H2; reflexivity.
Defined.

(** X3: a file whose duration cannot be probed is created with duration
    [0]: no clip of positive length can be taken from it, it has no
    available time, and the selection does not count it among
    [file_potentials]. *)
Theorem unprobed_file_never_available p probe ts L :
  get_video_duration probe = None -> 0 < L ->
  duration (new_video_file p (get_video_duration probe) ts) = 0 /\
  get_available_duration (new_video_file p (get_video_duration probe) ts) = 0 /\
  can_extract_clip (new_video_file p (get_video_duration probe) ts) L = false /\
  file_potentials [new_video_file p (get_video_duration probe) ts] L = [].
Proof.
  intros Hp HL. rewrite Hp. split; [reflexivity|]. split; [reflexivity|]. split.
  - unfold can_extract_clip. cbn [duration new_video_file].
    rewrite (proj2 (Qlt_bool_iff _ _) HL). reflexivity.
  - unfold file_potentials. cbn [filter duration new_video_file]. rewrite Qle_bool_false_intro by exact HL. reflexivity.
Qed.

Lemma unprobed_file_never_available_witness :
  can_extract_clip (new_video_file "x.mp4" (get_video_duration (PyRaise OtherException))
                      "20240101000000") 1 = false.
Proof.
  apply (unprobed_file_never_available "x.mp4" (PyRaise OtherException) "20240101000000" 1
           eq_refl ltac:(lra)).
Defined.

(** X4: a stem ["DJI_" ++ ts ++ rest], where [ts] has no ['_'] and [rest]
    is empty or starts with ['_'], gives the timestamp [ts] (empty for
    ["DJI__..."]); every stem starting with ["DJI_"] has this form, so such
    a stem never falls back to the modification or current time. *)
Theorem extract_timestamp_dji ts rest mtime now :
  no_underscore ts = true ->
  (rest = EmptyString \/ exists r, rest = String "_"%char r) ->
  extract_timestamp (String.append "DJI_" (String.append ts rest)) mtime now = PyOk ts.
Proof.
  intros Hts Hrest. destruct (py_split_field ts rest Hts Hrest) as [ws Hws].
  unfold extract_timestamp. simpl. rewrite Hws.
  destruct (String.append ts rest); reflexivity.
Qed.

Lemma extract_timestamp_dji_witness :
  extract_timestamp "DJI_20250205132608_0003_D" MtimeUncaught "20260101000000"
    = PyOk "20250205132608"%string.
Proof.
  apply (extract_timestamp_dji "20250205132608" "_0003_D" MtimeUncaught "20260101000000");
    [reflexivity|right; exists "0003_D"%string; reflexivity].
Defined.

(** X5: the three samples of a file at least [L] long start at [0],
    [(D - L) / 2] and [D - L]: every sampled window lies inside the
    file. *)
Theorem sample_starts_in_file D L i :
  L <= D -> (i < 3)%nat ->
  sample_start D L 3 i == (D - L) / 2 * inject_Z (Z.of_nat i) /\
  0 <= sample_start D L 3 i /\ sample_start D L 3 i + L <= D.
Proof.
  intros HLD Hi. pose proof (sample_start_3 D L i HLD) as Heq.
  split; [exact Heq|]. rewrite Heq.
  destruct i as [|[|[|i]]]; [| | |lia];
    [change (inject_Z (Z.of_nat 0)) with 0 | change (inject_Z (Z.of_nat 1)) with 1
    |change (inject_Z (Z.of_nat 2)) with 2];
    match goal with
    | |- context [(D - L) / 2 * ?c] =>
        setoid_replace ((D - L) / 2 * c) with ((D - L) * (c * (1 # 2))) by field
    end;
    split; lra.
Qed.

Lemma sample_starts_in_file_witness :
  sample_start 10 4 3 2 == (10 - 4) / 2 * inject_Z (Z.of_nat 2) /\
  0 <= sample_start 10 4 3 2 /\ sample_start 10 4 3 2 + 4 <= 10.
Proof. apply sample_starts_in_file; [apply Qle_bool_iff; reflexivity|lia]. Defined.

(** X6: the sampling pass of [select_clips_smart] never raises; it maps
    exactly the paths of the files at least [L] long to average scores in
    [[0, 0.9]]. *)
Theorem sampling_pass_never_raises video_files L draws :
  (forall p i, valid_u (s_u1 (draws p i))) -> (forall p i, valid_u (s_u2 (draws p i))) ->
  (forall p i, valid_u (s_u3 (draws p i))) ->
  exists file_features, sampling_pass video_files L draws = PyOk file_features /\
    (forall k, In k (map fst file_features) <->
               exists vf, In vf video_files /\ L <= duration vf /\ path vf = k) /\
    Forall (fun kv => scores_within 0 (9 # 10) (snd kv)) file_features.
Proof.
  intros Hu1 Hu2 Hu3. unfold sampling_pass.
  destruct (sampling_fold L draws
              (combine (seq 0 (List.length (file_potentials video_files L)))
                 (file_potentials video_files L)) [])
    as (d' & E & Hk & Hv).
  { intros p _. destruct (analyze_samples_ok (snd p) L (draws (fst p)) (Hu1 _) (Hu2 _) (Hu3 _))
      as (fs & Efs & Hne & Hall).
    exists fs. split; [exact Efs|]. apply avg_features_within; assumption. }
  exists d'. split; [exact E|]. split.
  - intros k. rewrite Hk. split.
    + intros [[]|(p & Hp & Hpk)]. destruct p as [i vf].
      apply in_combine_r in Hp. unfold file_potentials in Hp.
      apply filter_In in Hp as [Hin HL]. apply Qle_bool_iff in HL.
      exists vf. auto.
    + intros (vf & Hin & HL & Hk'). right.
      assert (Hf : In vf (file_potentials video_files L))
        by (apply filter_In; split; [exact Hin|apply Qle_bool_iff; exact HL]).
      destruct (In_combine_seq_intro _ 0 vf Hf) as [i Hi].
      exists (i, vf). auto.
  - apply Forall_forall. intros [k f] Hkf. apply Hv in Hkf as [[]|H]. exact H.
Qed.

Lemma sampling_pass_never_raises_witness :
  exists file_features,
    sampling_pass [file10; file5] 5
      (fun _ _ => mkSampleDraw (mkAnalysisEnv true None true true) (1 # 2) (1 # 2) (1 # 2))
      = PyOk file_features /\
    Forall (fun kv => scores_within 0 (9 # 10) (snd kv)) file_features.
Proof.
  destruct (sampling_pass_never_raises [file10; file5] 5
              (fun _ _ => mkSampleDraw (mkAnalysisEnv true None true true) (1 # 2) (1 # 2) (1 # 2)))
    as (d & E & _ & Hall); [intros; split; cbn; lra ..|].
  exists d. split; assumption.
Defined.

(** X7: [detect_scene_changes] returns its [random.uniform(0, duration)]
    draws sorted in ascending order, each in [[0, duration]], so
    [find_optimal_transition_point] returns a point inside the clip
    [[start_time, start_time + duration]] (its midpoint when there is no
    draw). *)
Theorem transition_point_within_clip start_time d us :
  0 <= d -> Forall valid_u us ->
  Permutation (scene_draws_of d us) (detect_scene_changes (scene_draws_of d us)) /\
  StronglySorted Qle (detect_scene_changes (scene_draws_of d us)) /\
  Forall (fun x => 0 <= x <= d) (detect_scene_changes (scene_draws_of d us)) /\
  start_time <= find_optimal_transition_point start_time d (detect_scene_changes (scene_draws_of d us)) /\
  find_optimal_transition_point start_time d (detect_scene_changes (scene_draws_of d us))
    <= start_time + d.
Proof.
  intros Hd Hus.
  pose proof (stable_sort_perm Qlt_bool (scene_draws_of d us)) as Hperm.
  assert (Hb : Forall (fun x => 0 <= x <= d) (detect_scene_changes (scene_draws_of d us))).
  { eapply Permutation_Forall; [exact Hperm|]. unfold scene_draws_of.
    apply Forall_map. eapply Forall_impl; [|exact Hus]. intros u [Hu0 Hu1].
    destruct (uniform_bounds 0 d u Hd Hu0 Hu1) as [H1 H2]. lra. }
  split; [exact Hperm|]. split; [apply detect_scene_changes_sorted|]. split; [exact Hb|].
  unfold find_optimal_transition_point.
  destruct (detect_scene_changes (scene_draws_of d us)) as [|x rest] eqn:E.
  - setoid_replace (d / 2) with (d * (1 # 2)) by field. split; lra.
  - destruct (closest_to_spec (d / 2) x rest) as [Hin _].
    pose proof (proj1 (Forall_forall _ _) Hb _ Hin) as [H1 H2]. split; lra.
Qed.

Lemma transition_point_within_clip_witness :
  3 <= find_optimal_transition_point 3 10 (detect_scene_changes (scene_draws_of 10 [1 # 5; 9 # 10]))
    <= 3 + 10.
Proof.
  destruct (transition_point_within_clip 3 10 [1 # 5; 9 # 10]) as (_ & _ & _ & H1 & H2);
    [lra|repeat constructor; lra|].
  split; assumption.
Defined.

(** X8: [find_optimal_transition_point] returns [start_time + c] for a
    draw [c] closest to [duration / 2]; when several are equally close it
    takes the smallest, because [min] keeps the first of the sorted
    list. *)
Theorem transition_point_earliest_tie start_time d draws :
  draws <> [] ->
  exists c, In c draws /\
    find_optimal_transition_point start_time d (detect_scene_changes draws) = start_time + c /\
    (forall y, In y draws -> Qabs (c - d / 2) <= Qabs (y - d / 2)) /\
    (forall y, In y draws -> Qabs (y - d / 2) == Qabs (c - d / 2) -> c <= y).
Proof.
  intros Hne. pose proof (stable_sort_perm Qlt_bool draws) as Hperm.
  pose proof (detect_scene_changes_sorted draws) as Hs.
  unfold detect_scene_changes in Hs |- *.
  destruct (stable_sort Qlt_bool draws) as [|x rest] eqn:E.
  - symmetry in Hperm. apply Permutation_nil in Hperm. contradiction.
  - apply StronglySorted_inv in Hs as [Hr Hx].
    destruct (closest_to_spec (d / 2) x rest) as [Hin Hmin].
    exists (closest_to (d / 2) x rest). split; [|split; [reflexivity|split]].
    + eapply Permutation_in; [symmetry; exact Hperm|exact Hin].
    + intros y Hy. apply Hmin. eapply Permutation_in; [exact Hperm|exact Hy].
    + intros y Hy Htie. apply (closest_to_first (d / 2) x rest Hx Hr y); [|exact Htie].
      eapply Permutation_in; [exact Hperm|exact Hy].
Qed.

Lemma transition_point_earliest_tie_witness :
  exists c, In c [7; 3] /\
    find_optimal_transition_point 0 10 (detect_scene_changes [7; 3]) = 0 + c /\ c <= 7.
Proof.
  destruct (transition_point_earliest_tie 0 10 [7; 3]) as (c & Hc & E & _ & Htie);
    [discriminate|].
  exists c. split; [exact Hc|]. split; [exact E|].
  apply Htie; [left; reflexivity|].
  destruct Hc as [<-|[<-|[]]]; [reflexivity|].
  apply Qeq_bool_iff. reflexivity.
Defined.

(** X10: a commit of either policy on a file lowers
    [get_available_duration] by the clip length [L], plus the gap of [1]
    when the file already had a used range. *)
Theorem commit_reduces_available_duration vf L k u s :
  reachable vf -> 0 < L -> valid_u u -> can_extract_clip vf L = true ->
  find_available_position vf L k u = Some s ->
  get_available_duration (add_used_range vf s L) ==
    get_available_duration vf - L - match used_ranges vf with [] => 0 | _ => 1 end.
Proof.
  intros Hr HL [Hu0 Hu1] Hcan Hf.
  destruct (commit_ok vf L k u s (reachable_ok vf Hr) HL Hu0 Hu1 Hcan Hf) as (_ & Hused & _).
  pose proof (proj1 (reachable_ok vf Hr)) as Hg.
  assert (HD : duration (add_used_range vf s L) = duration vf) by reflexivity.
  assert (HG : min_gap (add_used_range vf s L) = min_gap vf) by reflexivity.
  unfold get_available_duration. rewrite Hused, HD, HG, Hg. cbv zeta.
  unfold sum_lengths. cbn [fold_right fst snd List.length].
  destruct (used_ranges vf) as [|r rs].
  - cbv [Nat.ltb Nat.leb List.length]. cbn [fold_right]. ring.
  - cbn [List.length fold_right]. replace (Nat.ltb 1 (S (S (List.length rs)))) with true by reflexivity.
    rewrite inject_Z_pred_succ, inject_Z_of_nat_succ.
    destruct (List.length rs) as [|m].
    + replace (Nat.ltb 1 1) with false by reflexivity.
      change (inject_Z (Z.of_nat 0)) with 0. ring.
    + replace (Nat.ltb 1 (S (S m))) with true by reflexivity.
      rewrite inject_Z_pred_succ. ring.
Qed.

Lemma commit_reduces_available_duration_witness :
  get_available_duration (add_used_range file10 (uniform 0 (10 - 4) (1 # 2)) 4) ==
    get_available_duration file10 - 4 - match used_ranges file10 with [] => 0 | _ => 1 end.
Proof.
  apply (commit_reduces_available_duration file10 4 0 (1 # 2)); [exact file10_reachable|lra
    |split; lra|reflexivity|reflexivity].
Defined.

(** X11: [can_extract_clip] is monotone in the clip length: if a clip of
    length [L] can be taken from a file, so can any shorter clip. *)
Theorem can_extract_clip_shorter vf L L' :
  L' <= L -> can_extract_clip vf L = true -> can_extract_clip vf L' = true.
Proof.
  intros HL' H. pose proof (can_extract_clip_fits vf L H) as HD.
  unfold can_extract_clip in *.
  rewrite (Qlt_bool_false_intro (duration vf) L') by lra.
  rewrite (Qlt_bool_false_intro (duration vf) L) in H by exact HD.
  cbv beta iota zeta in *. revert H.
  apply if_chain_mono.
  - destruct (sorted_ranges vf) as [|[b e] t]; [discriminate|].
    intros Hb. apply Qle_bool_iff in Hb. apply Qle_bool_iff. lra.
  - apply some_inner_gap_mono. lra.
  - destruct (sorted_ranges vf); [discriminate|].
    intros Hb. apply Qle_bool_iff in Hb. apply Qle_bool_iff. lra.
  - intros Hb. apply Qle_bool_iff in Hb. apply Qle_bool_iff. lra.
Qed.

Lemma can_extract_clip_shorter_witness : can_extract_clip sample_file 1 = true.
Proof. apply (can_extract_clip_shorter sample_file 2 1); [lra|reflexivity]. Defined.

(** X12: on a file the engine can reach, a start [s] found by
    [find_available_position] for [0 < L <= duration] gives a window
    [[s, s + L]] inside the file and at least [1] second away from every
    used range. *)
Theorem find_available_position_separated vf L k u s :
  reachable vf -> 0 < L -> L <= duration vf -> valid_u u ->
  find_available_position vf L k u = Some s ->
  0 <= s /\ s + L <= duration vf /\
  Forall (fun r => snd r + 1 <= s \/ s + L + 1 <= fst r) (used_ranges vf).
Proof.
  intros Hr HL HD [Hu0 Hu1] Hf. destruct (reachable_ok vf Hr) as [Hg Hok].
  assert (Hg0 : 0 < min_gap vf) by (rewrite Hg; reflexivity).
  destruct (find_available_position_ok vf L k u s Hg0 HL Hu0 Hu1 HD Hok Hf)
    as [(H1 & H2 & H3) Hsep].
  cbn [fst snd] in H1, H2, H3. split; [exact H1|]. split; [exact H3|].
  eapply Forall_impl; [|exact Hsep]. intros r Hr'. unfold sep in Hr'. cbn [fst snd] in Hr'.
  rewrite Hg in Hr'. tauto.
Qed.

Lemma find_available_position_separated_witness :
  exists s, find_available_position sample_file 1 0 0 = Some s /\
    0 <= s /\ s + 1 <= duration sample_file.
Proof.
  destruct (find_available_position sample_file 1 0 0) as [s|] eqn:E;
    [|vm_compute in E; discriminate].
  exists s. split; [reflexivity|].
  destruct (find_available_position_separated sample_file 1 0 0 s sample_reachable ltac:(lra)
              ltac:(apply Qle_bool_iff; reflexivity) ltac:(split; lra) E) as (H1 & H2 & _).
  split; assumption.
Defined.

(** X13: for a non-empty list of available files, [top_half] keeps
    [max(1, len // 2)] of them, and every file it keeps has at least as
    much available duration as every file it drops. *)
Theorem top_half_keeps_longest av :
  av <> [] ->
  List.length (top_half av) = Nat.max 1 (Nat.div (List.length av) 2) /\
  exists rest, Permutation av (top_half av ++ rest) /\
    forall p q, In p (top_half av) -> In q rest ->
      get_available_duration (snd q) <= get_available_duration (snd p).
Proof.
  intros Hav. pose proof (top_half_sorted av) as Hs. unfold top_half. cbv zeta.
  set (sorted := stable_sort _ av) in *.
  assert (Hp : Permutation av sorted) by apply stable_sort_perm.
  pose proof (Permutation_length Hp) as Hlen.
  assert (H1 : (1 <= List.length av)%nat) by (destruct av; [congruence|cbn; lia]).
  assert (H2 : (Nat.div (List.length av) 2 <= List.length av)%nat)
    by (apply Nat.Div0.div_le_upper_bound; lia).
  split.
  - rewrite length_firstn, <- Hlen. lia.
  - exists (skipn (Nat.max 1 (Nat.div (List.length sorted) 2)) sorted). split.
    + rewrite firstn_skipn. exact Hp.
    + intros p q Hp' Hq. rewrite <- (firstn_skipn (Nat.max 1 (Nat.div (List.length sorted) 2)) sorted)
        in Hs.
      exact (StronglySorted_app_rel avail_ge _ _ p q Hs Hp' Hq).
Qed.

Lemma top_half_keeps_longest_witness :
  List.length (top_half (available_files [file10; file5; file_a] 4)) = 1%nat.
Proof.
  destruct (top_half_keeps_longest (available_files [file10; file5; file_a] 4)) as [H _];
    [vm_compute; discriminate|].
  rewrite H. vm_compute. reflexivity.
Defined.

(** X14: [eval_files] (the [for video_file in available_files: for _ in
    range(5)] loop of [select_clips_smart]) returns [None] exactly when no
    try finds a start; otherwise its best is one of the tries, its
    [best_score] is the [final_score] of its features, and no successful
    try scores higher. *)
Theorem eval_files_picks_best dw sel L d av :
  match eval_files dw sel L d av with
  | Some b =>
      (exists pos t kr u, nth_error av pos = Some (best_index b, best_file b) /\ (t < 5)%nat /\
         try_draw d pos t = (kr, u, best_features b) /\
         find_available_position (best_file b) L kr u = Some (best_start b)) /\
      best_score b = final_score dw sel (best_features b) /\
      (forall pos i vf t kr u f s, nth_error av pos = Some (i, vf) -> (t < 5)%nat ->
         try_draw d pos t = (kr, u, f) -> find_available_position vf L kr u = Some s ->
         final_score dw sel f <= best_score b)
  | None =>
      forall pos i vf t kr u f, nth_error av pos = Some (i, vf) -> (t < 5)%nat ->
        try_draw d pos t = (kr, u, f) -> find_available_position vf L kr u = None
  end.
Proof.
  rewrite eval_files_flat.
  pose proof (keep_best_fold (map (try_candidate dw sel L d) (all_tries av)) None) as H.
  destruct (fold_left keep_best (map (try_candidate dw sel L d) (all_tries av)) None) as [b|].
  - destruct H as ([H0|H0] & Hmax & _); [discriminate|].
    apply in_map_iff in H0 as ([[pos [i vf]] t] & Hc & Hin).
    apply In_all_tries in Hin as [Hn Ht].
    unfold try_candidate in Hc. destruct (try_draw d pos t) as [[kr u] f] eqn:Ed.
    destruct (find_available_position vf L kr u) as [s|] eqn:Ef; [|discriminate].
    injection Hc as <-. cbn [best_index best_file best_start best_features best_score].
    split; [exists pos, t, kr, u; auto|]. split; [reflexivity|].
    intros pos' i' vf' t' kr' u' f' s' Hn' Ht' Ed' Ef'.
    apply (Hmax (mkBest i' vf' s' f' (final_score dw sel f'))).
    apply in_map_iff. exists (pos', (i', vf'), t'). split.
    + unfold try_candidate. rewrite Ed', Ef'. reflexivity.
    + apply In_all_tries. auto.
  - destruct H as [_ Hall]. intros pos i vf t kr u f Hn Ht Ed.
    assert (Hin : In (try_candidate dw sel L d (pos, (i, vf), t))
                    (map (try_candidate dw sel L d) (all_tries av)))
      by (apply in_map, In_all_tries; auto).
    pose proof (proj1 (Forall_forall _ _) Hall _ Hin) as Hnone.
    unfold try_candidate in Hnone. rewrite Ed in Hnone.
    destruct (find_available_position vf L kr u); [discriminate|reflexivity].
Qed.

Lemma eval_files_picks_best_witness :
  exists b, eval_files 0 [] 4 (const_smart_draw (1 # 2) 0%nat) (available_files [file10] 4) = Some b /\
    final_score 0 [] zero_features <= best_score b.
Proof.
  pose proof (eval_files_picks_best 0 [] 4 (const_smart_draw (1 # 2) 0%nat)
                (available_files [file10] 4)) as H.
  destruct (eval_files 0 [] 4 (const_smart_draw (1 # 2) 0%nat) (available_files [file10] 4))
    as [b|] eqn:E; [|vm_compute in E; discriminate].
  exists b. split; [reflexivity|].
  destruct H as (_ & _ & Hmax).
  apply (Hmax 0%nat 0%nat file10 0%nat 0%nat (1 # 2) zero_features (uniform 0 (10 - 4) (1 # 2)));
    [vm_compute; reflexivity|lia|reflexivity|vm_compute; reflexivity].
Defined.

(** X15: a run of [select_clips] or [select_clips_smart] that returns
    fewer clips than [num_clips_needed] has used up the files: no file
    left can give another clip ([can_extract_clip] is false for all). *)
Theorem short_run_exhausts_files fuel rng srng dw video_files L T res fs :
  (select_clips fuel rng video_files L T = Some (res, fs) \/
   select_clips_smart fuel srng video_files L T dw = Some (res, fs)) ->
  (Z.of_nat (List.length res) < num_clips_needed video_files L T)%Z ->
  Forall (fun vf => can_extract_clip vf L = false) fs.
Proof.
  intros [H|H] Hlt.
  - apply plain_loop_stop in H as (st & m & Hs & -> & ->).
    rewrite <- (Permutation_length (sort_clips_perm _)) in Hlt.
    destruct (plain_iter_stop _ _ _ _ Hs) as [Hge|Hav]; [lia|].
    apply available_files_nil, Hav.
  - apply smart_loop_stop in H as (st & m & Hs & -> & ->).
    rewrite <- (Permutation_length (sort_clips_perm _)) in Hlt.
    destruct (smart_iter_stop _ _ _ _ _ Hs) as [Hge|Hav]; [lia|].
    apply available_files_nil, Hav.
Qed.

Lemma short_run_exhausts_files_witness :
  Forall (fun vf => can_extract_clip vf 3 = false)
    (match select_clips 10 (const_draw (1 # 3)) [file10] 3 9 with
     | Some (_, fs) => fs | None => [] end).
Proof.
  apply (short_run_exhausts_files 10 (const_draw (1 # 3)) (const_smart_draw 0) 0 [file10] 3 9
           (match select_clips 10 (const_draw (1 # 3)) [file10] 3 9 with
            | Some (res, _) => res | None => [] end)
           (match select_clips 10 (const_draw (1 # 3)) [file10] 3 9 with
            | Some (_, fs) => fs | None => [] end)).
  - left. vm_compute. reflexivity.
  - vm_compute. reflexivity.
Defined.

(** X16: a run of either policy hands back the same files, in the same
    order: each keeps its path, duration, timestamp and [min_gap], and
    keeps every range it had used (it may have more). *)
Theorem run_keeps_files fuel rng srng dw video_files L T res fs :
  (select_clips fuel rng video_files L T = Some (res, fs) \/
   select_clips_smart fuel srng video_files L T dw = Some (res, fs)) ->
  Forall2 (fun vf vf' =>
    path vf' = path vf /\ duration vf' = duration vf /\ timestamp vf' = timestamp vf /\
    min_gap vf' = min_gap vf /\ incl (used_ranges vf) (used_ranges vf')) video_files fs.
Proof.
  intros [H|H]; [unfold select_clips in H|unfold select_clips_smart in H].
  - eapply (plain_loop_files video_files); [|exact H]. apply same_files_refl.
  - eapply (smart_loop_files video_files); [|exact H]. apply same_files_refl.
Qed.

Lemma run_keeps_files_witness :
  Forall2 (fun vf vf' =>
    path vf' = path vf /\ duration vf' = duration vf /\ timestamp vf' = timestamp vf /\
    min_gap vf' = min_gap vf /\ incl (used_ranges vf) (used_ranges vf')) [file10; file5]
    (match select_clips_smart 10 (const_smart_draw (1 # 3)) [file10; file5] 3 9 0 with
     | Some (_, fs) => fs | None => [] end).
Proof.
  apply (run_keeps_files 10 (const_draw 0) (const_smart_draw (1 # 3)) 0 [file10; file5] 3 9
           (match select_clips_smart 10 (const_smart_draw (1 # 3)) [file10; file5] 3 9 0 with
            | Some (res, _) => res | None => [] end)).
  right. vm_compute. reflexivity.
Defined.

(** X17: [create_timeline_from_clips] imports the clips one by one in
    order; the media items it got are appended in that order.  It returns
    [True] only when each imported clip was appended, [False] with nothing
    appended, and it raises ([float()] of the FPS property) exactly at the
    first imported clip without an FPS, after appending those before it.
    When it returns [True], every clip whose import succeeded is there. *)
Theorem create_timeline_outcome api clips :
  let run := create_timeline_from_clips api clips in
  StronglySorted lt (imported run) /\
  (forall j, In j (imported run) -> (j < List.length clips)%nat /\ import_ok api j = true) /\
  (run_result run = PyOk false -> appended run = []) /\
  (run_result run = PyOk true ->
     map item_clip (appended run) = imported run /\
     forall j, (j < List.length clips)%nat -> import_ok api j = true -> In j (imported run)) /\
  (forall e, run_result run = PyRaise e ->
     exists j rest, imported run = map item_clip (appended run) ++ j :: rest /\
       fps_property api j = None).
Proof.
  cbv zeta. unfold create_timeline_from_clips.
  destruct (project_manager_ok api), (current_project_ok api), (media_pool_ok api),
    (root_folder_ok api), (bin_ok api); cbn [negb];
    try (cbn [imported appended run_result]; split; [constructor|];
         split; [intros j []|]; split; [reflexivity|]; split; [discriminate|];
         intros e H; discriminate).
  pose proof (import_clips_sorted api 0 clips) as Hs.
  assert (Hr : forall j, In j (map ac_item (import_clips api 0 clips)) ->
                 (j < List.length clips)%nat /\ import_ok api j = true)
    by (intros j Hj; apply import_clips_range in Hj as [Hj Hok]; split; [lia|exact Hok]).
  destruct (timeline_ok api); cbn [negb].
  - pose proof (append_clips_spec api (import_clips api 0 clips)) as [Ha _].
    destruct (append_clips api (import_clips api 0 clips)) as [r items].
    cbn [fst snd imported appended run_result] in *.
    split; [exact Hs|]. split; [exact Hr|].
    destruct r as [u|e].
    + split; [discriminate|]. split; [|intros e' H; discriminate].
      intros _. split; [exact Ha|]. intros j Hj Hok. apply import_clips_complete; [lia|exact Hok].
    + split; [discriminate|]. split; [discriminate|].
      intros e' _. destruct Ha as (pre & a & post & -> & Hm & Hf).
      exists (ac_item a), (map ac_item post). rewrite Hm, map_app. split; [reflexivity|exact Hf].
  - cbn [imported appended run_result]. split; [exact Hs|]. split; [exact Hr|].
    split; [reflexivity|]. split; [discriminate|]. intros e H; discriminate.
Qed.

Lemma create_timeline_outcome_witness :
  map item_clip (appended (create_timeline_from_clips timeline_api timeline_clips)) = [0%nat; 2%nat].
Proof.
  pose proof (create_timeline_outcome timeline_api timeline_clips) as H. cbv zeta in H.
  destruct H as (_ & _ & _ & Htrue & _).
  destruct (Htrue ltac:(vm_compute; reflexivity)) as [-> _].
  vm_compute. reflexivity.
Defined.

(** X18: every item [create_timeline_from_clips] appends is the media
    item of one of the clips, with frames [int(start * fps)] to
    [int((start + duration) * fps)] at that clip's FPS; for a clip with
    non-negative start and duration and a non-negative FPS, the frames are
    non-negative and in order, and the item is [duration * fps] frames
    long up to less than one frame. *)
Theorem timeline_item_frames api clips it :
  In it (appended (create_timeline_from_clips api clips)) ->
  exists clip fps, nth_error clips (item_clip it) = Some clip /\
    fps_property api (item_clip it) = Some fps /\
    start_frame it = py_int (ClipInfo.start clip * fps) /\
    end_frame it = py_int ((ClipInfo.start clip + ClipInfo.duration clip) * fps) /\
    (0 <= ClipInfo.start clip -> 0 <= ClipInfo.duration clip -> 0 <= fps ->
       (0 <= start_frame it <= end_frame it)%Z /\
       Qabs (inject_Z (end_frame it - start_frame it) - ClipInfo.duration clip * fps) < 1).
Proof.
  unfold create_timeline_from_clips.
  destruct (project_manager_ok api), (current_project_ok api), (media_pool_ok api),
    (root_folder_ok api), (bin_ok api), (timeline_ok api); cbn [negb appended];
    try (intros []).
  pose proof (append_clips_spec api (import_clips api 0 clips)) as [_ Hi].
  destruct (append_clips api (import_clips api 0 clips)) as [r items].
  cbn [snd appended] in *. intros Hit.
  destruct (Hi it Hit) as (a & fps & Ha & Hc & Hf & Hsf & Hef).
  destruct (import_clips_items api 0 clips a Ha) as (clip & _ & Hn & _ & Hs & Hd).
  rewrite Nat.sub_0_r in Hn. rewrite <- Hc in Hn, Hf. rewrite Hs, Hd in *.
  exists clip, fps. split; [exact Hn|]. split; [exact Hf|]. split; [exact Hsf|]. split; [exact Hef|].
  intros H0 H1 H2.
  assert (Hp1 : 0 <= ClipInfo.start clip * fps) by (apply Qmult_le_0_compat; assumption).
  assert (Hp2 : 0 <= (ClipInfo.start clip + ClipInfo.duration clip) * fps)
    by (apply Qmult_le_0_compat; lra).
  rewrite Hsf, Hef, (py_int_nonneg _ Hp1), (py_int_nonneg _ Hp2). split.
  - split.
    + change 0%Z with (Qfloor 0). apply Qfloor_resp_le. exact Hp1.
    + apply Qfloor_resp_le. nra.
  - pose proof (floor_diff_bound (ClipInfo.start clip * fps)
                  ((ClipInfo.start clip + ClipInfo.duration clip) * fps)) as Hb.
    setoid_replace ((ClipInfo.start clip + ClipInfo.duration clip) * fps - ClipInfo.start clip * fps)
      with (ClipInfo.duration clip * fps) in Hb by ring.
    exact Hb.
Qed.

Lemma timeline_item_frames_witness :
  Qabs (inject_Z (195 - 45) - 5 * 30) < 1.
Proof.
  destruct (timeline_item_frames timeline_api timeline_clips (mkTimelineItem 2 45 195))
    as (clip & fps & Hn & Hf & _ & _ & Hb); [vm_compute; right; left; reflexivity|].
  vm_compute in Hn. injection Hn as <-. vm_compute in Hf. injection Hf as <-.
  cbn [ClipInfo.start ClipInfo.duration start_frame end_frame] in Hb.
  apply Hb; lra.
Defined.

(** X19: for [clip_duration > 0] and [total_duration > 0], either policy
    returns at most [ceil(total_duration / clip_duration)] clips and at
    most [total_possible_clips] clips; when every file is shorter than
    [clip_duration], both return the empty list at once and leave the files
    as they were. *)
Theorem selection_count_within_bounds fuel rng srng dw video_files L T :
  0 < L -> 0 < T ->
  (forall res fs,
     (select_clips fuel rng video_files L T = Some (res, fs) \/
      select_clips_smart fuel srng video_files L T dw = Some (res, fs)) ->
     (Z.of_nat (List.length res) <= Qceiling (T / L))%Z /\
     (Z.of_nat (List.length res) <= total_possible_clips video_files L)%Z) /\
  (Forall (fun vf => duration vf < L) video_files ->
   select_clips (S fuel) rng video_files L T = Some ([], video_files) /\
   select_clips_smart (S fuel) srng video_files L T dw = Some ([], video_files)).
Proof.
  intros HL HT. split.
  - intros res fs Hrun.
    destruct (selection_sorted_len fuel rng srng dw video_files L T res fs Hrun)
      as (sel & Hlen & ->).
    rewrite <- (Permutation_length (sort_clips_perm sel)).
    pose proof (ceiling_pos L T HL HT).
    pose proof (total_possible_clips_nonneg video_files L HL).
    unfold num_clips_needed in Hlen.
    destruct (Z.ltb_spec (total_possible_clips video_files L) (Qceiling (T / L))); lia.
  - intros Hshort. unfold select_clips, select_clips_smart. cbn [plain_loop smart_loop].
    unfold plain_iter, smart_iter. cbn [ps_selected ps_files ss_selected ss_files].
    rewrite available_files_short by exact Hshort.
    split; destruct (Z.ltb _ _); reflexivity.
Qed.

Lemma selection_count_within_bounds_witness :
  select_clips 3 (const_draw 0) [file5] 6 10 = Some ([], [file5]) /\
  (Z.of_nat (List.length
     (match select_clips 10 (const_draw 0) [file10] 4 12 with
      | Some (res, _) => res | None => [] end)) <= total_possible_clips [file10] 4)%Z.
Proof.
  split.
  - apply (proj2 (selection_count_within_bounds 2 (const_draw 0) (const_smart_draw 0) 0
                    [file5] 6 10 ltac:(lra) ltac:(lra))).
    constructor; [|constructor]. apply Qle_bool_false. reflexivity.
  - apply (proj1 (selection_count_within_bounds 10 (const_draw 0) (const_smart_draw 0) 0
                    [file10] 4 12 ltac:(lra) ltac:(lra))
             (match select_clips 10 (const_draw 0) [file10] 4 12 with
              | Some (res, _) => res | None => [] end)
             (match select_clips 10 (const_draw 0) [file10] 4 12 with
              | Some (_, fs) => fs | None => [] end)).
    left. vm_compute. reflexivity.
Defined.

(** X20: on a file the engine can reach that already has a used range,
    for [clip_duration > 0], whenever [find_available_position] finds a
    start, [can_extract_clip] is true: once a range is used it has no
    false negatives. *)
Theorem find_start_implies_can_extract vf L k u s :
  reachable vf -> 0 < L -> used_ranges vf <> [] ->
  find_available_position vf L k u = Some s -> can_extract_clip vf L = true.
Proof. apply find_some_can_extract. Qed.

Lemma find_start_implies_can_extract_witness :
  exists s, find_available_position sample_file 1 0 0 = Some s /\ can_extract_clip sample_file 1 = true.
Proof.
  destruct (find_available_position sample_file 1 0 0) as [s|] eqn:E;
    [|vm_compute in E; discriminate].
  exists s. split; [reflexivity|].
  exact (find_start_implies_can_extract sample_file 1 0 0 s sample_reachable ltac:(lra)
           ltac:(discriminate) E).
Defined.
